(** * UserManager: a JSON-backed store of user records

    A shallow embedding of [data_management.py] (class [UserManager]) and
    the properties of its create / read / update / delete / search
    operations and of its e-mail validation.

    Modelling conventions.
    - A Python [str] is a [string]: a sequence of code points below 256.
    - A user record is a Python [dict] with [str] keys: a [gmap string value].
      Dict equality ([==]) does not look at insertion order, and neither
      does [gmap] equality.
    - Field values are the JSON scalars: [None], booleans, integers and
      strings (the console front end stores strings and integers).
    - A Python exception is the [Raise] outcome of the [result] type.
    - The list [self.users] is a list of values.  The methods never put one
      dict object at two places of the list ([create_user] refuses a record
      that is already there, [load_users] builds new objects), so an update
      in place changes one element.  Callers that keep a record and change
      it behind the store's back are not modelled. *)

From Stdlib Require Import ZArith NArith Ascii String.
From stdpp Require Import base option list strings gmap fin_maps.

Local Open Scope string_scope.
Local Open Scope list_scope.

(** ** Python values *)

Inductive value : Type :=
| VNone
| VBool (b : bool)
| VInt (z : Z)
| VStr (s : string).

#[global] Instance value_eq_dec : EqDecision value.
Proof. solve_decision. Defined.

(** [bool] is a subclass of [int] in Python: [True == 1] and [False == 0].
    [norm] maps a value to the representative of its [==] class. *)
Definition norm (v : value) : value :=
  match v with
  | VBool b => VInt (if b then 1 else 0)
  | _ => v
  end.

(** [v == w] *)
Definition py_eq (v w : value) : bool := bool_decide (norm v = norm w).

(** Truth value of an object in a condition: [None], [False], [0] and the
    empty string are false. *)
Definition truthy (v : value) : bool :=
  match v with
  | VNone => false
  | VBool b => b
  | VInt z => negb (z =? 0)%Z
  | VStr s => negb (bool_decide (s = ""))
  end.

(** ** Exceptions *)

Inductive exn : Type :=
| KeyError (key : string)
| TypeError
| AttributeError
| ValueError
| JSONDecodeError.

Inductive result (A : Type) : Type :=
| Ok (a : A)
| Raise (e : exn).
Arguments Ok {A} a.
Arguments Raise {A} e.

#[global] Instance result_ret : MRet result := fun A a => Ok a.
#[global] Instance result_bind : MBind result := fun A B f m =>
  match m with
  | Ok a => f a
  | Raise e => Raise e
  end.

(** ** Records *)

Abbreviation record := (gmap string value).

(** [d[key]] *)
Definition getitem (d : record) (key : string) : result value :=
  match d !! key with
  | Some v => Ok v
  | None => Raise (KeyError key)
  end.

(** [d1 == d2] on dicts: same keys, and [==] values under each key. *)
Definition dict_eq (d1 d2 : record) : bool :=
  bool_decide (norm <$> d1 = norm <$> d2).

(** [d.update(other)]: keys of [other] overwrite, the remaining keys of [d]
    stay. *)
Definition dict_update (d other : record) : record := other ∪ d.

(** ** str.lower *)

(** On code points below 256 the upper-case letters are A-Z, and in the
    Latin-1 block U+00C0..U+00DE without the multiplication sign U+00D7;
    each has its lower-case letter 32 places further. *)
Definition lower_char (c : ascii) : ascii :=
  let n := N_of_ascii c in
  if ((65 <=? n) && (n <=? 90) ||
      (192 <=? n) && (n <=? 222) && negb (n =? 215))%N
  then ascii_of_N (n + 32)
  else c.

Fixpoint lower (s : string) : string :=
  match s with
  | EmptyString => EmptyString
  | String c s' => String (lower_char c) (lower s')
  end.

(** [v.lower()] for an arbitrary object: only [str] has the method. *)
Definition py_lower (v : value) : result string :=
  match v with
  | VStr s => Ok (lower s)
  | _ => Raise AttributeError
  end.

(** ** Regular expressions, as far as [email_regex] needs them *)

Inductive item : Type :=
| Bol                              (* ^ *)
| Eol                              (* $ *)
| Lit (c : ascii)                  (* a literal character *)
| Plus (cls : ascii → bool).       (* [...]+ *)

(** [[cls]+] followed by the continuation [k]: take one character of the
    class, then try to take more before trying [k] (greedy, backtracking). *)
Fixpoint plus (cls : ascii → bool) (k : string → bool) (s : string) : bool :=
  match s with
  | EmptyString => false
  | String c s' => cls c && (plus cls k s' || k s')
  end.

(** [$] without [re.MULTILINE]: the end of the string, or just before a
    newline that is the last character of the string. *)
Definition at_eol (s : string) : bool :=
  match s with
  | EmptyString => true
  | String c EmptyString => bool_decide (c = "010"%char)
  | _ => false
  end.

(** Does the pattern match at this position? [start] says whether the
    position is the beginning of the string, [s] is the rest of the string. *)
Fixpoint match_here (re : list item) (start : bool) (s : string) : bool :=
  match re with
  | [] => true
  | Bol :: re' => start && match_here re' start s
  | Eol :: re' => at_eol s && match_here re' start s
  | Lit c :: re' =>
      match s with
      | String c' s' => bool_decide (c' = c) && match_here re' false s'
      | EmptyString => false
      end
  | Plus cls :: re' => plus cls (match_here re' false) s
  end.

(** [re.match(re, s) is not None] *)
Definition re_match (re : list item) (s : string) : bool := match_here re true s.

Definition in_range (lo hi c : ascii) : bool :=
  (N_of_ascii lo <=? N_of_ascii c)%N && (N_of_ascii c <=? N_of_ascii hi)%N.

(** [a-zA-Z0-9] *)
Definition alnum (c : ascii) : bool :=
  in_range "a" "z" c || in_range "A" "Z" c || in_range "0" "9" c.

(** [[a-zA-Z0-9_.+-]] *)
Definition local_class (c : ascii) : bool :=
  alnum c || bool_decide (c = "_"%char) || bool_decide (c = "."%char)
  || bool_decide (c = "+"%char) || bool_decide (c = "-"%char).

(** [[a-zA-Z0-9-]] *)
Definition domain_class (c : ascii) : bool :=
  alnum c || bool_decide (c = "-"%char).

(** [[a-zA-Z0-9-.]] *)
Definition tail_class (c : ascii) : bool :=
  alnum c || bool_decide (c = "-"%char) || bool_decide (c = "."%char).

(** [r"(^[a-zA-Z0-9_.+-]+@[a-zA-Z0-9-]+\.[a-zA-Z0-9-.]+$)"]; the group
    around the whole pattern does not change whether it matches. *)
Definition email_regex : list item :=
  [Bol; Plus local_class; Lit "@"; Plus domain_class; Lit ".";
   Plus tail_class; Eol].

(** [UserManager.validate_email]; [re.match] raises [TypeError] on an
    argument that is not a string. *)
Definition validate_email (email : value) : result bool :=
  match email with
  | VStr s => Ok (re_match email_regex s)
  | _ => Raise TypeError
  end.

(** ** The json module and the file system

    [json.dump] and [json.load] belong to the Python library, not to this
    program.  The store only relies on what they are: a writer of a document
    for a list of records and a reader that may fail. *)

Class Json (document : Type) : Type := {
  (** the document [json.dump(users, file, indent=4)] writes *)
  json_dump : list record → document;
  (** [json.load(file)]; [Raise] when the document is not a JSON array of
      objects (for the text format: [JSONDecodeError]) *)
  json_load : document → result (list record);
}.

(** The simplest reader and writer: the file holds the JSON array itself
    rather than its text.  It is used to run the store on concrete inputs. *)
#[global] Instance array_json : Json (list record) := {|
  json_dump := λ us, us;
  json_load := λ doc, Ok doc;
|}.

(** ** The store *)

Section UserManager.
Context {document : Type} `{!Json document}.

(** The object: [self.filename] and [self.users]. *)
Record UserManager : Type := {
  filename : string;
  users : list record;
}.

(** What an operation can see and change: the object, the files by name,
    and the lines printed so far. *)
Record world : Type := {
  self : UserManager;
  files : gmap string document;
  stdout : list string;
}.

Definition set_users (us : list record) (w : world) : world :=
  {| self := {| filename := filename (self w); users := us |};
     files := files w; stdout := stdout w |}.

Definition set_files (fs : gmap string document) (w : world) : world :=
  {| self := self w; files := fs; stdout := stdout w |}.

Definition set_stdout (out : list string) (w : world) : world :=
  {| self := self w; files := files w; stdout := out |}.

(** A method that may change the world or raise.  In every method below an
    exception can only be raised before the first assignment, print or
    write, so [Raise] carries no world: it is the one the method started
    in. *)
Definition M (A : Type) : Type := world → result (A * world).

#[global] Instance M_ret : MRet M := λ A a w, Ok (a, w).
#[global] Instance M_bind : MBind M := λ A B f m w,
  match m w with
  | Ok (a, w') => f a w'
  | Raise e => Raise e
  end.

Definition lift {A} (r : result A) : M A := λ w,
  match r with
  | Ok a => Ok (a, w)
  | Raise e => Raise e
  end.

Definition get_self : M UserManager := λ w, Ok (self w, w).

(** [self.users = us] *)
Definition assign_users (us : list record) : M unit := λ w,
  Ok (tt, set_users us w).

(** [self.users.append(user)] *)
Definition append_user (user : record) : M unit := λ w,
  Ok (tt, set_users (users (self w) ++ [user]) w).

Definition print (line : string) : M unit := λ w,
  Ok (tt, set_stdout (stdout w ++ [line]) w).

(** [load_users]: [os.path.exists(self.filename)] is whether the file system
    has a file of that name. *)
Definition load_users : M unit := λ w,
  match files w !! filename (self w) with
  | Some doc =>
      match json_load doc with
      | Ok us => Ok (tt, set_users us w)
      | Raise e => Raise e
      end
  | None => Ok (tt, set_users [] w)
  end.

(** [save_users]: [open(self.filename, 'w')] creates or truncates the file,
    [json.dump] writes the whole list. *)
Definition save_users : M unit := λ w,
  Ok (tt, set_files (<[filename (self w) := json_dump (users (self w))]> (files w)) w).

(** [UserManager(filename)] on a given file system. *)
Definition init (name : string) (fs : gmap string document) : result world :=
  match load_users {| self := {| filename := name; users := [] |};
                      files := fs; stdout := [] |} with
  | Ok (_, w) => Ok w
  | Raise e => Raise e
  end.

(** The loop shared by [read_user] and [delete_user]:
    [for user in self.users: if user['id'] == user_id: (found user)]. *)
Fixpoint first_with_id (us : list record) (user_id : value) : result (option record) :=
  match us with
  | [] => Ok None
  | user :: rest =>
      v ← getitem user "id";
      if py_eq v user_id then Ok (Some user) else first_with_id rest user_id
  end.

(** What [read_user] returns: a record, [None], or the list [self.users]. *)
Inductive read_result : Type :=
| RUser (user : record)
| RNone
| RAll (us : list record).

(** Truth value of what [read_user] returned: a dict or a list is true when
    it is not empty. *)
Definition truthy_result (r : read_result) : bool :=
  match r with
  | RUser user => negb (bool_decide (user = ∅))
  | RNone => false
  | RAll us => negb (bool_decide (us = []))
  end.

(** [read_user(user_id=None)] *)
Definition read_user (this : UserManager) (user_id : value) : result read_result :=
  if truthy user_id then
    found ← first_with_id (users this) user_id;
    Ok (match found with Some user => RUser user | None => RNone end)
  else Ok (RAll (users this)).

(** [create_user(user)] *)
Definition create_user (user : record) : M bool :=
  this ← get_self;
  user_id ← lift (getitem user "id");
  found ← lift (read_user this user_id);
  if truthy_result found then
    print "User with this ID already exists.";; mret false
  else
    email ← lift (getitem user "email");
    valid ← lift (validate_email email);
    if negb valid then
      print "Invalid email format.";; mret false
    else
      append_user user;;
      save_users;;
      mret true.

(** ['email' in updated_user and not self.validate_email(updated_user['email'])] *)
Definition email_rejected (updated_user : record) : result bool :=
  match updated_user !! "email" with
  | Some email => valid ← validate_email email; Ok (negb valid)
  | None => Ok false
  end.

(** What the loop of [update_user] does to the list. *)
Inductive update_outcome : Type :=
| Updated (us : list record)     (* a record was updated: save and return True *)
| Rejected                       (* a record matched, the e-mail is invalid *)
| NoMatch.                       (* the loop ended *)

Fixpoint update_loop (us : list record) (user_id : value) (updated_user : record)
  : result update_outcome :=
  match us with
  | [] => Ok NoMatch
  | user :: rest =>
      v ← getitem user "id";
      if py_eq v user_id then
        rejected ← email_rejected updated_user;
        if (rejected : bool) then Ok Rejected
        else Ok (Updated (dict_update user updated_user :: rest))
      else
        out ← update_loop rest user_id updated_user;
        Ok (match out with
            | Updated rest' => Updated (user :: rest')
            | other => other
            end)
  end.

(** [update_user(user_id, updated_user)] *)
Definition update_user (user_id : value) (updated_user : record) : M bool :=
  this ← get_self;
  out ← lift (update_loop (users this) user_id updated_user);
  match out with
  | Updated us' => assign_users us';; save_users;; mret true
  | Rejected => print "Invalid email format.";; mret false
  | NoMatch => mret false
  end.

(** [l.remove(x)]: drop the first element equal ([==]) to [x]; [ValueError]
    when there is none. *)
Fixpoint list_remove (x : record) (l : list record) : result (list record) :=
  match l with
  | [] => Raise ValueError
  | y :: l' =>
      if dict_eq y x then Ok l'
      else l'' ← list_remove x l'; Ok (y :: l'')
  end.

(** [delete_user(user_id)] *)
Definition delete_user (user_id : value) : M bool :=
  this ← get_self;
  found ← lift (first_with_id (users this) user_id);
  match found with
  | Some user =>
      us' ← lift (list_remove user (users this));
      assign_users us';;
      save_users;;
      mret true
  | None => mret false
  end.

(** [[user for user in results if cond(user)]] where [cond] may raise. *)
Fixpoint comprehension (cond : record → result bool) (results : list record)
  : result (list record) :=
  match results with
  | [] => Ok []
  | user :: rest =>
      keep ← cond user;
      rest' ← comprehension cond rest;
      Ok (if (keep : bool) then user :: rest' else rest')
  end.

(** [user[key].lower() == wanted.lower()] *)
Definition same_lower (key : string) (wanted : value) (user : record) : result bool :=
  field ← getitem user key;
  a ← py_lower field;
  b ← py_lower wanted;
  Ok (bool_decide (a = b)).

(** [user['age'] == age] *)
Definition same_age (age : value) (user : record) : result bool :=
  field ← getitem user "age";
  Ok (py_eq field age).

(** [search_users(name=None, email=None, age=None)] *)
Definition search_users (this : UserManager) (name email age : value)
  : result (list record) :=
  let results := users this in
  results ← (if truthy name then comprehension (same_lower "name" name) results
             else Ok results);
  results ← (if truthy email then comprehension (same_lower "email" email) results
             else Ok results);
  results ← (if truthy age then comprehension (same_age age) results
             else Ok results);
  Ok results.

End UserManager.

Arguments world : clear implicits.

(** ** Vocabulary of the specification *)

Definition newline : string := String "010"%char "".

(** Every character of [s] is in the class. *)
Fixpoint all_in (cls : ascii → bool) (s : string) : bool :=
  match s with
  | EmptyString => true
  | String c s' => cls c && all_in cls s'
  end.

(** One or more characters of the class, and nothing else. *)
Definition word (cls : ascii → bool) (s : string) : Prop :=
  s ≠ "" ∧ all_in cls s = true.

(** The pattern of the specification, anchored at both ends of [s]:
    one or more of [[A-Za-z0-9_.+-]], then [@], then one or more of
    [[A-Za-z0-9-]], then [.], then one or more of [[A-Za-z0-9-.]]. *)
Definition matches_email_pattern (s : string) : Prop :=
  ∃ l d t, s = l +:+ "@" +:+ d +:+ "." +:+ t
           ∧ word local_class l ∧ word domain_class d ∧ word tail_class t.

(** The record has an ['id'] key. *)
Definition has_id (user : record) : Prop := is_Some (user !! "id").

(** The ids of the records of a list, each by the representative of its
    [==] class, in list order. *)
Definition ids (us : list record) : list value :=
  omap (λ user : record, norm <$> user !! "id") us.

(** No two records of the list have equal ([==]) ids. *)
Definition unique_ids (us : list record) : Prop := NoDup (ids us).

(** An id is held by some record of the list. *)
Definition id_in (user_id : value) (us : list record) : Prop :=
  norm user_id ∈ ids us.

#[global] Instance id_in_dec user_id us : Decision (id_in user_id us).
Proof. unfold id_in. apply _. Defined.

(** What [create_user] takes for "the id already exists": [read_user]
    returned something true.  For an id that is itself true this is a record
    with that id; for an id that is false ([''], [0], [None]) [read_user]
    returns the whole list, which is true when it is not empty. *)
Definition duplicate_check_fires (user_id : value) (us : list record) : Prop :=
  if truthy user_id then id_in user_id us else us ≠ [].

#[global] Instance duplicate_check_fires_dec user_id us :
  Decision (duplicate_check_fires user_id us).
Proof. unfold duplicate_check_fires, id_in. destruct (truthy user_id); apply _. Defined.

Definition msg_duplicate : string := "User with this ID already exists.".
Definition msg_invalid : string := "Invalid email format.".

(** The world after [self.users = us; self.save_users()]. *)
Definition committed {document} `{!Json document}
    (us : list record) (w : world document) : world document :=
  set_files (<[filename (self w) := json_dump us]> (files w)) (set_users us w).

(** The world after [print(line)]. *)
Definition printed {document} (line : string) (w : world document)
  : world document :=
  set_stdout (stdout w ++ [line]) w.

(** The search criteria of the specification.  A criterion that is [None]
    is not given and holds of every record; a name or an e-mail is compared
    through [lower], an age by [==]. *)
Definition text_matches (key : string) (wanted : value) (user : record) : bool :=
  match wanted, user !! key with
  | VNone, _ => true
  | VStr n, Some (VStr s) => bool_decide (lower s = lower n)
  | _, _ => false
  end.

Definition age_matches (wanted : value) (user : record) : bool :=
  match wanted, user !! "age" with
  | VNone, _ => true
  | _, Some v => py_eq v wanted
  | _, None => false
  end.

(** The record satisfies all the criteria that are given. *)
Definition satisfies (name email age : value) (user : record) : bool :=
  text_matches "name" name user && text_matches "email" email user
  && age_matches age user.

(** A record with the fields the console front end stores: a name and an
    e-mail that are strings, and an age. *)
Definition complete (user : record) : Prop :=
  (∃ s, user !! "name" = Some (VStr s))
  ∧ (∃ s, user !! "email" = Some (VStr s))
  ∧ is_Some (user !! "age").

(** A name or e-mail criterion that [search_users] applies when it is given:
    not given, or a string that is not empty. *)
Definition text_criterion (wanted : value) : Prop :=
  wanted = VNone ∨ ∃ n, wanted = VStr n ∧ n ≠ "".

(** An age criterion that [search_users] applies when it is given: not
    given, or an integer other than [0]. *)
Definition age_criterion (wanted : value) : Prop :=
  wanted = VNone ∨ ∃ z, wanted = VInt z ∧ z ≠ 0%Z.

(** The object and the files of [w'] are those of [w]: at most the printed
    lines differ. *)
Definition same_store {document} (w w' : world document) : Prop :=
  self w' = self w ∧ files w' = files w.

(** The last character of [s] is in the class. *)
Fixpoint ends_in (cls : ascii → bool) (s : string) : bool :=
  match s with
  | EmptyString => false
  | String c EmptyString => cls c
  | String _ s' => ends_in cls s'
  end.

(** How often the character occurs in the string. *)
Fixpoint count_char (c : ascii) (s : string) : nat :=
  match s with
  | EmptyString => 0
  | String c' s' => (if bool_decide (c' = c) then 1 else 0) + count_char c s'
  end.

(** The record has an ['email'] that [validate_email] accepts. *)
Definition valid_email_field (user : record) : Prop :=
  ∃ email, user !! "email" = Some email ∧ validate_email email = Ok true.

(** The list is as the methods mean to keep it: every record has an id, no
    two records the same one, and every e-mail is valid. *)
Definition well_kept (us : list record) : Prop :=
  Forall has_id us ∧ unique_ids us ∧ Forall valid_email_field us.

(** The file of the store holds the list: there is no file and the list is
    empty, or the file is what [save_users] writes for the list. *)
Definition in_sync {document} `{!Json document} (w : world document) : Prop :=
  (files w !! filename (self w) = None ∧ users (self w) = [])
  ∨ files w !! filename (self w) = Some (json_dump (users (self w))).

(** [reaches allowed w w']: from the world [w] a program gets to [w'] by
    printing and by calling [create_user], [delete_user], and [update_user]
    with new fields that are [allowed], whatever the calls return. *)
Inductive reaches {document} `{!Json document} (allowed : record → Prop)
  : world document → world document → Prop :=
| reaches_here w :
    reaches allowed w w
| reaches_print line w0 w :
    reaches allowed w0 w → reaches allowed w0 (printed line w)
| reaches_create user b w0 w w' :
    reaches allowed w0 w → create_user user w = Ok (b, w') →
    reaches allowed w0 w'
| reaches_update user_id (updated_user : record) b w0 w w' :
    reaches allowed w0 w → allowed updated_user →
    update_user user_id updated_user w = Ok (b, w') → reaches allowed w0 w'
| reaches_delete user_id b w0 w w' :
    reaches allowed w0 w → delete_user user_id w = Ok (b, w') →
    reaches allowed w0 w'.

(** New fields that leave the id alone. *)
Definition no_id (updated_user : record) : Prop := updated_user !! "id" = None.

(** ** The console front end

    [main] reads lines with [input] and writes with [print].  The lines the
    user will type are a list; [input] takes the first one and raises
    [EOFError] when there is none.  A prompt of [input] is written to the
    output like a printed line.  [int] and the text of a record as [print]
    and an f-string write it are builtins of Python: parameters here. *)

(** Why [main] stopped other than by its [break]. *)
Inductive stop : Type :=
| EOFError
| Uncaught (e : exn).

Section Console.
Context {document : Type} `{!Json document}.

(** [int(s)]: [ValueError] when [s] is not an integer literal *)
Variable py_int : string → result Z.
(** [str(x)] of an object that [read_user] returns *)
Variable py_str : read_result → string.

Record console : Type := {
  stdin : list string;
  store : world document;
}.

(** How a piece of [main] ends: it returns, or an exception nobody catches
    ends the program; [OutOfFuel] is the loop cut off by the bound of the
    model. *)
Inductive outcome (A : Type) : Type :=
| Returned (a : A) (c : console)
| Stopped (why : stop) (c : console)
| OutOfFuel (c : console).
Arguments Returned {A} a c.
Arguments Stopped {A} why c.
Arguments OutOfFuel {A} c.

Definition C (A : Type) : Type := console → outcome A.

#[global] Instance C_ret : MRet C := λ A a c, Returned a c.
#[global] Instance C_bind : MBind C := λ A B f m c,
  match m c with
  | Returned a c' => f a c'
  | Stopped why c' => Stopped why c'
  | OutOfFuel c' => OutOfFuel c'
  end.

(** A method of the store, called from [main]: an exception it raises is
    not caught. *)
Definition call {A} (m : M A) : C A := λ c,
  match m (store c) with
  | Ok (a, w) => Returned a {| stdin := stdin c; store := w |}
  | Raise e => Stopped (Uncaught e) c
  end.

(** An expression that may raise. *)
Definition try {A} (r : result A) : C A := λ c,
  match r with
  | Ok a => Returned a c
  | Raise e => Stopped (Uncaught e) c
  end.

Definition the_store : C UserManager := λ c, Returned (self (store c)) c.

(** [input(prompt)] *)
Definition input (prompt : string) : C string := λ c,
  let w := printed prompt (store c) in
  match stdin c with
  | [] => Stopped EOFError {| stdin := []; store := w |}
  | line :: rest => Returned line {| stdin := rest; store := w |}
  end.

(** [for user in users: print(user)] *)
Fixpoint print_each (us : list record) : C unit :=
  match us with
  | [] => mret tt
  | user :: rest => call (print (py_str (RUser user)));; print_each rest
  end.

(** [int(age) if age else None] *)
Definition typed_age (age : string) : C value :=
  if truthy (VStr age) then n ← try (py_int age); mret (VInt n)
  else mret VNone.

(** Choice 1 *)
Definition menu_create : C unit :=
  id ← input "Enter ID: ";
  name ← input "Enter Name: ";
  email ← input "Enter Email: ";
  age ← input "Enter Age: ";
  age ← try (py_int age);
  let user : record :=
    {[ "id" := VStr id; "name" := VStr name;
       "email" := VStr email; "age" := VInt age ]} in
  created ← call (create_user user);
  if (created : bool) then call (print "User created successfully.")
  else call (print "User creation failed. ID must be unique or invalid email format.").

(** Choice 2.  With an id that is true [read_user] returns a record or
    [None], with no id the list: the other shapes do not occur, and what
    Python would do with them is left out ([TypeError] stands for it). *)
Definition menu_read : C unit :=
  user_id ← input "Enter user ID to retrieve (leave blank to retrieve all): ";
  this ← the_store;
  if truthy (VStr user_id) then
    user ← try (read_user this (VStr user_id));
    if truthy_result user then call (print ("User Found: " +:+ py_str user))
    else call (print "User not found.")
  else
    users ← try (read_user this VNone);
    call (print "All Users:");;
    match users with
    | RAll us => print_each us
    | _ => try (Raise TypeError)
    end.

(** Choice 3 *)
Definition menu_update : C unit :=
  user_id ← input "Enter user ID to update: ";
  let updated_user : record := ∅ in
  name ← input "Enter new Name (leave blank to skip): ";
  let updated_user :=
    if truthy (VStr name) then <["name" := VStr name]> updated_user
    else updated_user in
  email ← input "Enter new Email (leave blank to skip): ";
  let updated_user :=
    if truthy (VStr email) then <["email" := VStr email]> updated_user
    else updated_user in
  age ← input "Enter new Age (leave blank to skip): ";
  updated_user ←
    (if truthy (VStr age)
     then n ← try (py_int age); mret (<["age" := VInt n]> updated_user)
     else mret updated_user);
  updated ← call (update_user (VStr user_id) updated_user);
  if (updated : bool) then call (print "User updated successfully.")
  else call (print "User not found or invalid email format.").

(** Choice 4 *)
Definition menu_delete : C unit :=
  user_id ← input "Enter user ID to delete: ";
  deleted ← call (delete_user (VStr user_id));
  if (deleted : bool) then call (print "User deleted successfully.")
  else call (print "User not found.").

(** Choice 5 *)
Definition menu_search : C unit :=
  name ← input "Enter name to search (leave blank to skip): ";
  email ← input "Enter email to search (leave blank to skip): ";
  age ← input "Enter age to search (leave blank to skip): ";
  age ← typed_age age;
  this ← the_store;
  users ← try (search_users this (VStr name) (VStr email) age);
  if negb (bool_decide (users = [])) then
    call (print "Users Found:");; print_each users
  else call (print "No users found.").

(** The feedback question at the end of a turn. *)
Definition ask_feedback : C unit :=
  feedback ← input "Would you like to provide feedback on your experience? (yes/no): ";
  if bool_decide (lower feedback = "yes") then
    input "Please enter your feedback: ";;
    call (print "Thank you for your feedback!")
  else mret tt.

(** One turn of the loop of [main]; [false] is its [break]. *)
Definition turn : C bool :=
  call (print (newline +:+ "User Management System"));;
  call (print "1. Create User");;
  call (print "2. Read User");;
  call (print "3. Update User");;
  call (print "4. Delete User");;
  call (print "5. Search Users");;
  call (print "6. Exit");;
  choice ← input "Enter your choice: ";
  if bool_decide (choice = "1") then menu_create;; ask_feedback;; mret true
  else if bool_decide (choice = "2") then menu_read;; ask_feedback;; mret true
  else if bool_decide (choice = "3") then menu_update;; ask_feedback;; mret true
  else if bool_decide (choice = "4") then menu_delete;; ask_feedback;; mret true
  else if bool_decide (choice = "5") then menu_search;; ask_feedback;; mret true
  else if bool_decide (choice = "6") then mret false
  else call (print "Invalid choice. Please try again.");; ask_feedback;; mret true.

(** [while True:] with at most [fuel] turns *)
Fixpoint main_loop (fuel : nat) : C unit :=
  match fuel with
  | 0 => OutOfFuel
  | S fuel' =>
      again ← turn;
      if (again : bool) then main_loop fuel' else mret tt
  end.

(** [main()] with the lines the user types, on a file system.  When
    [UserManager()] raises, the object has its empty list. *)
Definition main (fuel : nat) (lines : list string) (fs : gmap string document)
  : outcome unit :=
  let w0 := {| self := {| filename := "users.json"; users := [] |};
               files := fs; stdout := [] |} in
  match init "users.json" fs with
  | Ok w => main_loop fuel {| stdin := lines; store := w |}
  | Raise e => Stopped (Uncaught e) {| stdin := lines; store := w0 |}
  end.

End Console.

Arguments console : clear implicits.
Arguments outcome : clear implicits.
Arguments Returned {document A} a c.
Arguments Stopped {document A} why c.
Arguments OutOfFuel {document A} c.

(** The exception that ended the run, and the list of the store at the
    end. *)
Definition stop_reason {document A} (o : outcome document A) : option stop :=
  match o with
  | Stopped why _ => Some why
  | _ => None
  end.

Definition final_users {document A} (o : outcome document A) : list record :=
  match o with
  | Returned _ c | Stopped _ c | OutOfFuel c => users (self (store c))
  end.

(** A record as the console writes it: with an id, and complete. *)
Definition tidy (user : record) : Prop := has_id user ∧ complete user.

Definition tidy_store {document} (c : console document) : Prop :=
  Forall tidy (users (self (store c))).

(** New fields as the console passes them to [update_user]: no ['id'], and a
    name and an e-mail, if any, that are strings. *)
Definition console_fields (updated_user : record) : Prop :=
  updated_user !! "id" = None
  ∧ (∀ v, updated_user !! "name" = Some v → ∃ s, v = VStr s)
  ∧ (∀ v, updated_user !! "email" = Some v → ∃ s, v = VStr s).

(** The ways to end [main] that are the user's doing: the lines ran out, or
    [int] raised on a text that was typed. *)
Definition from_input (py_int : string → result Z) (why : stop) : Prop :=
  why = EOFError ∨ ∃ e s, why = Uncaught e ∧ py_int s = Raise e.

(** From a console with [P], the piece of [main] returns in one with [Q],
    or stops for a reason that is the user's doing. *)
Definition hoare {document} `{!Json document} {A} (py_int : string → result Z)
    (P : console document → Prop)
    (m : console document → outcome document A)
    (Q : A → console document → Prop) : Prop :=
  ∀ c, P c → match m c with
             | Returned a c' => Q a c'
             | Stopped why _ => from_input py_int why
             | OutOfFuel _ => True
             end.

(** The console [c'] comes after [c]: a well kept list stays well kept, a
    file in sync stays in sync, and no line was added to those still to be
    read. *)
Definition follows {document} `{!Json document} (c c' : console document) : Prop :=
  (well_kept (users (self (store c))) → well_kept (users (self (store c'))))
  ∧ (in_sync (store c) → in_sync (store c'))
  ∧ (length (stdin c') ≤ length (stdin c))%nat.

(** A piece of [main] that ends in a console that follows, having read at
    least [k] lines when it returns. *)
Definition advances {document} `{!Json document} {A} (k : nat)
    (m : console document → outcome document A) : Prop :=
  ∀ c, match m c with
       | Returned _ c' =>
           follows c c' ∧ (k + length (stdin c') ≤ length (stdin c))%nat
       | Stopped _ c' => follows c c'
       | OutOfFuel _ => False
       end.

(** ** Sample data *)

Definition bob : record :=
  {[ "id" := VStr "1"; "name" := VStr "Bob";
     "email" := VStr "bob@example.com"; "age" := VInt 30 ]}.

Definition alice : record :=
  {[ "id" := VStr "2"; "name" := VStr "Alice";
     "email" := VStr "alice@example.com"; "age" := VInt 25 ]}.

(** A record with the empty string as its id. *)
Definition eve : record :=
  {[ "id" := VStr ""; "name" := VStr "Eve";
     "email" := VStr "eve@example.com"; "age" := VInt 41 ]}.

(** A second record with Bob's id, and an e-mail that is none. *)
Definition bad_bob : record :=
  {[ "id" := VStr "1"; "name" := VStr "Bobby";
     "email" := VStr "not-an-email"; "age" := VInt 30 ]}.

(** Another record with Bob's id, as a storage file may hold one. *)
Definition bobby : record :=
  {[ "id" := VStr "1"; "name" := VStr "Bobby";
     "email" := VStr "bobby@example.com"; "age" := VInt 7 ]}.

(** Stand-ins for the two builtins that [main] needs, for inputs on which
    they do not matter: an [int] that takes no text for a number, and a
    [str] that writes no detail. *)
Definition int_of_nothing : string → result Z := λ _, Raise ValueError.
Definition str_of_nothing : read_result → string := λ _, "{...}".

(** A store as [UserManager()] finds it when there is no file. *)
Definition fresh : world (list record) :=
  {| self := {| filename := "users.json"; users := [] |};
     files := ∅; stdout := [] |}.

(** A store as [UserManager()] finds it when the file holds [us]. *)
Definition loaded (us : list record) : world (list record) :=
  {| self := {| filename := "users.json"; users := us |};
     files := {[ "users.json" := us ]}; stdout := [] |}.

(** * Properties *)

(** ** Strings *)

Lemma app_cons c (s r : string) : String c s +:+ r = String c (s +:+ r).
Proof. reflexivity. Qed.

Lemma app_empty_l (s : string) : "" +:+ s = s.
Proof. reflexivity. Qed.

Lemma app_empty_r (s : string) : s +:+ "" = s.
Proof.
  induction s as [|c s IH]; [done|]. by rewrite app_cons, IH.
Qed.

Lemma app_assoc_string (s1 s2 s3 : string) :
  (s1 +:+ s2) +:+ s3 = s1 +:+ (s2 +:+ s3).
Proof.
  induction s1 as [|c s1 IH]; [done|]. by rewrite !app_cons, IH.
Qed.

Lemma app_eq_empty (s r : string) : s +:+ r = "" → s = "".
Proof. by destruct s. Qed.

(** ** The matcher *)

(** [[cls]+] followed by [k] matches [s] exactly when [s] splits into a
    word of the class and a rest that [k] accepts: the backtracking search
    finds a split whenever there is one. *)
Lemma plus_spec cls k (s : string) :
  plus cls k s = true ↔ ∃ p r, s = p +:+ r ∧ word cls p ∧ k r = true.
Proof.
  induction s as [|c s IH]; simpl.
  - split; [done|]. intros (p & r & Hs & [Hp _] & _).
    symmetry in Hs. by apply app_eq_empty in Hs.
  - rewrite andb_true_iff, orb_true_iff, IH. split.
    + intros [Hc [(p & r & -> & [Hp Hall] & Hk) | Hk]].
      * exists (String c p), r. repeat split; [done | | done].
        simpl. by rewrite Hc, Hall.
      * exists (String c ""), s. repeat split; [done | | done].
        simpl. by rewrite Hc.
    + intros (p & r & Hs & [Hp Hall] & Hk).
      destruct p as [|c' p]; [done|]. rewrite app_cons in Hs. simpl in Hall.
      injection Hs as <- ->. apply andb_true_iff in Hall as [Hc Hall].
      split; [done|]. destruct p as [|c'' p].
      * by right.
      * left. exists (String c'' p), r. by repeat split.
Qed.

Lemma at_eol_spec (s : string) : at_eol s = true ↔ s = "" ∨ s = newline.
Proof.
  destruct s as [|c [|c' s]]; simpl.
  - split; [by left | done].
  - rewrite bool_decide_eq_true. unfold newline.
    split; [intros ->; by right | by intros [? | [= ->]]].
  - unfold newline. split; [done | by intros [? | ?]].
Qed.

(** The pattern followed by a rest [r], as the matcher walks it. *)
Lemma match_email_rest (s : string) :
  re_match email_regex s = true ↔
  ∃ l d t r, s = l +:+ "@" +:+ d +:+ "." +:+ t +:+ r
             ∧ word local_class l ∧ word domain_class d ∧ word tail_class t
             ∧ at_eol r = true.
Proof.
  unfold re_match, email_regex. cbn [match_here andb]. split.
  - intros H. apply plus_spec in H as (l & r1 & -> & Hl & H).
    destruct r1 as [|c1 r2]; [done|].
    apply andb_true_iff in H as [Hc1 H]. apply bool_decide_eq_true in Hc1 as ->.
    apply plus_spec in H as (d & r3 & -> & Hd & H).
    destruct r3 as [|c2 r4]; [done|].
    apply andb_true_iff in H as [Hc2 H]. apply bool_decide_eq_true in Hc2 as ->.
    apply plus_spec in H as (t & r5 & -> & Ht & H).
    rewrite andb_true_r in H. by exists l, d, t, r5.
  - intros (l & d & t & r & -> & Hl & Hd & Ht & Hr).
    apply plus_spec. exists l, ("@" +:+ d +:+ "." +:+ t +:+ r).
    split_and!; [done.. |]. rewrite app_cons, app_empty_l.
    rewrite bool_decide_eq_true_2 by done. cbn [andb].
    apply plus_spec. exists d, ("." +:+ t +:+ r).
    split_and!; [done.. |]. rewrite app_cons, app_empty_l.
    rewrite bool_decide_eq_true_2 by done. cbn [andb].
    apply plus_spec. exists t, r.
    split_and!; [done.. |]. by rewrite Hr.
Qed.

(** What [validate_email] accepts: a string that matches the pattern from
    its first to its last character, or such a string followed by one
    newline. *)
Theorem validate_email_spec (s : string) :
  validate_email (VStr s) = Ok true ↔
  matches_email_pattern s ∨ ∃ s', s = s' +:+ newline ∧ matches_email_pattern s'.
Proof.
  unfold validate_email, matches_email_pattern.
  assert (∀ b, Ok b = Ok true ↔ b = true) as ->
    by (intros b; split; [by intros [= ->] | by intros ->]).
  rewrite match_email_rest. split.
  - intros (l & d & t & r & -> & Hl & Hd & Ht & [-> | ->]%at_eol_spec).
    + left. exists l, d, t. by rewrite app_empty_r.
    + right. exists (l +:+ "@" +:+ d +:+ "." +:+ t). split; [|by exists l, d, t].
      by rewrite !app_assoc_string.
  - intros [(l & d & t & -> & Hl & Hd & Ht)
            | (s' & -> & l & d & t & -> & Hl & Hd & Ht)].
    + exists l, d, t, "". by rewrite app_empty_r.
    + exists l, d, t, newline. split; [|done].
      by rewrite !app_assoc_string.
Qed.

Lemma ends_in_app cls (p t : string) : t ≠ "" → ends_in cls (p +:+ t) = ends_in cls t.
Proof.
  intros Ht. induction p as [|c p IH]; [done|].
  rewrite app_cons. simpl. rewrite IH.
  destruct (p +:+ t) eqn:E; [|done]. by destruct p.
Qed.

Lemma word_ends_in cls (t : string) : word cls t → ends_in cls t = true.
Proof.
  intros [Hne Hall]. induction t as [|c t IH]; [done|].
  simpl in *. apply andb_true_iff in Hall as [Hc Hall].
  destruct t; [done | by apply IH].
Qed.

(** A string that matches the pattern up to its very end ends with a
    character of the last class. *)
Lemma matches_email_pattern_last (s : string) :
  matches_email_pattern s → ends_in tail_class s = true.
Proof.
  intros (l & d & t & -> & _ & _ & Ht).
  rewrite <- !app_assoc_string. rewrite ends_in_app by apply Ht.
  by apply word_ends_in.
Qed.

(** C4 (defect): the specification anchors the pattern at the very end of
    the string and excludes a trailing newline, but [validate_email] accepts
    ["a@b.c\n"]: [$] also matches just before a final newline. *)
Theorem C4_validate_email_accepts_trailing_newline :
  validate_email (VStr ("a@b.c" +:+ newline)) = Ok true
  ∧ ¬ matches_email_pattern ("a@b.c" +:+ newline).
Proof.
  split; [reflexivity|].
  intros H%matches_email_pattern_last. discriminate H.
Qed.

(** ** Values and ids *)

Lemma py_eq_true (v w : value) : py_eq v w = true ↔ norm v = norm w.
Proof. apply bool_decide_eq_true. Qed.

Lemma ids_cons_Some (user : record) us v :
  user !! "id" = Some v → ids (user :: us) = norm v :: ids us.
Proof. intros Hv. unfold ids. simpl. by rewrite Hv. Qed.

Lemma ids_app (us1 us2 : list record) : ids (us1 ++ us2) = ids us1 ++ ids us2.
Proof. apply omap_app. Qed.

Lemma id_in_cons (user : record) us v user_id :
  user !! "id" = Some v →
  id_in user_id (user :: us) ↔ norm v = norm user_id ∨ id_in user_id us.
Proof.
  intros Hv. unfold id_in. rewrite (ids_cons_Some _ _ _ Hv), elem_of_cons.
  split; (intros [?|?]; [by left | by right]).
Qed.

Lemma not_id_in_nil (user_id : value) : ¬ id_in user_id [].
Proof. unfold id_in. simpl. apply not_elem_of_nil. Qed.

(** ** The scan for an id *)

Lemma first_with_id_None (us : list record) user_id :
  Forall has_id us → ¬ id_in user_id us → first_with_id us user_id = Ok None.
Proof.
  induction 1 as [|user us [v Hv] _ IH]; intros Hnot; [done|].
  cbn. unfold getitem. rewrite Hv. cbn.
  rewrite (id_in_cons _ _ _ _ Hv) in Hnot.
  destruct (py_eq v user_id) eqn:E.
  - apply py_eq_true in E. destruct Hnot. by left.
  - apply IH. intros ?. destruct Hnot. by right.
Qed.

Lemma first_with_id_Some (pre post : list record) (user : record) v user_id :
  Forall has_id pre → ¬ id_in user_id pre →
  user !! "id" = Some v → norm v = norm user_id →
  first_with_id (pre ++ user :: post) user_id = Ok (Some user).
Proof.
  intros Hpre Hnot Hv Heq.
  induction Hpre as [|u pre [x Hx] _ IH]; cbn; unfold getitem.
  - rewrite Hv. cbn. apply py_eq_true in Heq. by rewrite Heq.
  - rewrite Hx. cbn. rewrite (id_in_cons _ _ _ _ Hx) in Hnot.
    destruct (py_eq x user_id) eqn:E.
    + apply py_eq_true in E. destruct Hnot. by left.
    + apply IH. intros ?. destruct Hnot. by right.
Qed.

Lemma first_with_id_Some_inv (us : list record) user_id (user : record) :
  first_with_id us user_id = Ok (Some user) →
  ∃ pre post v, us = pre ++ user :: post ∧ Forall has_id pre
                ∧ ¬ id_in user_id pre
                ∧ user !! "id" = Some v ∧ norm v = norm user_id.
Proof.
  induction us as [|u us IH]; [done|].
  cbn. unfold getitem. destruct (u !! "id") as [x|] eqn:Hx; [|done]. cbn.
  destruct (py_eq x user_id) eqn:E.
  - intros [= ->]. exists [], us, x. apply py_eq_true in E.
    split_and!; [done | constructor | apply not_id_in_nil | done | done].
  - intros (pre & post & v & -> & Hpre & Hnot & Hv & Heq)%IH.
    exists (u :: pre), post, v. split_and!; [done | | | done | done].
    + constructor; [by exists x | done].
    + rewrite (id_in_cons _ _ _ _ Hx). intros [Hn | Hin]; [|done].
      apply py_eq_true in Hn. congruence.
Qed.

Lemma first_with_id_None_inv (us : list record) user_id :
  first_with_id us user_id = Ok None → Forall has_id us ∧ ¬ id_in user_id us.
Proof.
  induction us as [|u us IH]; intros H.
  - split; [constructor | apply not_id_in_nil].
  - cbn in H. unfold getitem in H.
    destruct (u !! "id") as [x|] eqn:Hx; [|done]. cbn in H.
    destruct (py_eq x user_id) eqn:E; [done|].
    destruct (IH H) as [Hall Hnot]. split.
    + constructor; [by exists x | done].
    + rewrite (id_in_cons _ _ _ _ Hx). intros [Hn | Hin]; [|done].
      apply py_eq_true in Hn. congruence.
Qed.

(** With an id on every record the scan never raises, and finds a record
    exactly when one has the id. *)
Lemma first_with_id_total (us : list record) user_id :
  Forall has_id us →
  (id_in user_id us ∧ ∃ user, first_with_id us user_id = Ok (Some user))
  ∨ (¬ id_in user_id us ∧ first_with_id us user_id = Ok None).
Proof.
  induction 1 as [|u us [x Hx] _ IH].
  - right. split; [apply not_id_in_nil | done].
  - cbn. unfold getitem. rewrite Hx. cbn. rewrite (id_in_cons _ _ _ _ Hx).
    destruct (py_eq x user_id) eqn:E.
    + left. apply py_eq_true in E. split; [by left | by exists u].
    + destruct IH as [[Hin Hsome] | [Hnot Hnone]].
      * left. split; [by right | done].
      * right. split; [|done]. intros [Hn | Hin]; [|done].
        apply py_eq_true in Hn. congruence.
Qed.

(** ** Running a method step by step *)

Section Store.
Context {document : Type} `{!Json document}.
Implicit Types (w : world document) (user : record) (us : list record).

Lemma run_get_self {B} (f : UserManager → M B) w :
  (get_self ≫= f) w = f (self w) w.
Proof. reflexivity. Qed.

Lemma run_lift_Ok {A B} (a : A) (f : A → M B) w : (lift (Ok a) ≫= f) w = f a w.
Proof. reflexivity. Qed.

Lemma run_lift_Raise {A B} e (f : A → M B) w :
  (lift (Raise e) ≫= f) w = Raise e.
Proof. reflexivity. Qed.

Lemma run_print {B} line (f : unit → M B) w :
  (print line ≫= f) w = f tt (printed line w).
Proof. reflexivity. Qed.

Lemma run_append_user {B} user (f : unit → M B) w :
  (append_user user ≫= f) w = f tt (set_users (users (self w) ++ [user]) w).
Proof. reflexivity. Qed.

Lemma run_assign_users {B} us (f : unit → M B) w :
  (assign_users us ≫= f) w = f tt (set_users us w).
Proof. reflexivity. Qed.

Lemma run_save_users {B} (f : unit → M B) w :
  (save_users ≫= f) w = f tt (committed (users (self w)) w).
Proof. by destruct w as [[] ? ?]. Qed.

Lemma run_ret {A} (a : A) w : (mret a : M A) w = Ok (a, w).
Proof. reflexivity. Qed.

Lemma committed_set_users us us' w :
  committed us (set_users us' w) = committed us w.
Proof. reflexivity. Qed.

End Store.

Create Rewrite HintDb run.
#[global] Hint Rewrite @run_get_self @run_lift_Ok @run_lift_Raise @run_print
  @run_append_user @run_assign_users @run_save_users @run_ret
  @committed_set_users : run.

(** Run the method in the goal as far as its steps are known. *)
Ltac run := autorewrite with run; try reflexivity.

(** ** read_user and create_user *)

Section Create.
Context {document : Type} `{!Json document}.
Implicit Types (w : world document) (user : record) (us : list record).

(** [read_user] as [create_user] uses it: it does not raise when every
    record has an id, and what it returns is true exactly in the cases of
    [duplicate_check_fires]. *)
Lemma read_user_fires (this : UserManager) user_id :
  (truthy user_id = true → Forall has_id (users this)) →
  ∃ r, read_user this user_id = Ok r
       ∧ (truthy_result r = true ↔ duplicate_check_fires user_id (users this)).
Proof.
  intros Hwf. unfold read_user, duplicate_check_fires.
  destruct (truthy user_id) eqn:Ht.
  - destruct (first_with_id_total (users this) user_id (Hwf eq_refl))
      as [[Hin [user Hu]] | [Hnot Hnone]].
    + rewrite Hu. cbn. eexists; split; [done|]. cbn.
      apply first_with_id_Some_inv in Hu as (_ & _ & v & _ & _ & _ & Hv & _).
      split; [done|]. intros _. apply negb_true_iff, bool_decide_eq_false.
      intros ->. by rewrite lookup_empty in Hv.
    + rewrite Hnone. cbn. eexists; split; [done|]. cbn. by split.
  - eexists; split; [done|]. cbn.
    by rewrite negb_true_iff, bool_decide_eq_false.
Qed.

(** The three outcomes of [create_user], for a record with an ['id'] and an
    ['email'] that is a string, on a list in which every record has an id. *)
Theorem create_user_spec w user user_id email :
  user !! "id" = Some user_id → user !! "email" = Some (VStr email) →
  (truthy user_id = true → Forall has_id (users (self w))) →
  create_user user w =
    if decide (duplicate_check_fires user_id (users (self w)))
    then Ok (false, printed msg_duplicate w)
    else if re_match email_regex email
         then Ok (true, committed (users (self w) ++ [user]) w)
         else Ok (false, printed msg_invalid w).
Proof.
  intros Hid Hemail Hwf. unfold create_user, getitem. rewrite Hid, Hemail. run.
  destruct (read_user_fires (self w) user_id Hwf) as (r & -> & Hr). run.
  destruct (truthy_result r) eqn:Et; case_decide as Hd.
  - by run.
  - destruct Hd. by apply Hr.
  - apply Hr in Hd. congruence.
  - run. cbn [validate_email]. run. by destruct (re_match email_regex email); run.
Qed.

(** For an id that is true the duplicate check is the one of the
    specification: a record of the list has the id. *)
Corollary create_user_checks_in_order w user user_id email :
  user !! "id" = Some user_id → user !! "email" = Some (VStr email) →
  truthy user_id = true → Forall has_id (users (self w)) →
  create_user user w =
    if decide (id_in user_id (users (self w)))
    then Ok (false, printed msg_duplicate w)
    else if re_match email_regex email
         then Ok (true, committed (users (self w) ++ [user]) w)
         else Ok (false, printed msg_invalid w).
Proof.
  intros Hid Hemail Ht Hall.
  rewrite (create_user_spec w user user_id email) by done.
  unfold duplicate_check_fires.
  repeat case_decide; rewrite Ht in *; done.
Qed.

(** An id that is false is no id for [read_user]. *)
Lemma read_user_falsy (this : UserManager) user_id :
  truthy user_id = false → read_user this user_id = Ok (RAll (users this)).
Proof. intros Hf. unfold read_user. by rewrite Hf. Qed.

(** C9: a record whose id is the empty string is refused as a duplicate by
    every store that is not empty, whether or not a record with that id is
    there; the empty store takes it (given a valid e-mail). *)
Theorem C9_create_user_empty_id w user :
  user !! "id" = Some (VStr "") →
  (users (self w) ≠ [] → create_user user w = Ok (false, printed msg_duplicate w))
  ∧ (users (self w) = [] →
     ∀ email, user !! "email" = Some email → validate_email email = Ok true →
     create_user user w = Ok (true, committed [user] w)).
Proof.
  intros Hid. split.
  - intros Hne. unfold create_user, getitem. rewrite Hid. run.
    rewrite read_user_falsy by done. run.
    cbn [truthy_result]. rewrite bool_decide_eq_false_2 by done. by run.
  - intros Hnil email Hemail Hvalid. unfold create_user, getitem.
    rewrite Hid, Hemail. run. rewrite read_user_falsy by done. run.
    cbn [truthy_result]. rewrite bool_decide_eq_true_2 by done.
    cbn [negb]. run. rewrite Hvalid. run. cbn [negb]. run. by rewrite Hnil.
Qed.

(** C10: [read_user('')] does no lookup: like [read_user()] it returns the
    whole list. *)
Theorem C10_read_user_empty_id (this : UserManager) :
  read_user this (VStr "") = Ok (RAll (users this))
  ∧ read_user this (VStr "") = read_user this VNone.
Proof. split; reflexivity. Qed.

End Create.

(** ** Concrete runs of create_user *)

Lemma C9_create_user_empty_id_witness :
  create_user eve (loaded [bob]) = Ok (false, printed msg_duplicate (loaded [bob]))
  ∧ create_user eve fresh = Ok (true, committed [eve] fresh).
Proof.
  split.
  - apply (C9_create_user_empty_id (loaded [bob]) eve); [reflexivity | discriminate].
  - apply (C9_create_user_empty_id fresh eve) with (email := VStr "eve@example.com");
      reflexivity.
Defined.

Lemma ids_bob : ids [bob] = [VStr "1"].
Proof. reflexivity. Qed.

(** C5 (defect): no record of the store has the id [''] and the e-mail is
    valid, so the record should be appended; [create_user] reports a
    duplicate id and returns [False], leaving the store as it was. *)
Theorem C5_create_user_rejects_fresh_empty_id :
  ¬ id_in (VStr "") [bob]
  ∧ validate_email (VStr "eve@example.com") = Ok true
  ∧ create_user eve (loaded [bob])
    = Ok (false, printed msg_duplicate (loaded [bob])).
Proof.
  split_and!; [|reflexivity..].
  unfold id_in. rewrite ids_bob. by intros [=]%list_elem_of_singleton.
Qed.

(** ** update_user *)

Lemma update_loop_NoMatch (us : list record) user_id (updated_user : record) :
  Forall has_id us → ¬ id_in user_id us →
  update_loop us user_id updated_user = Ok NoMatch.
Proof.
  induction 1 as [|user us [v Hv] _ IH]; intros Hnot; [done|].
  cbn. unfold getitem. rewrite Hv. cbn.
  rewrite (id_in_cons _ _ _ _ Hv) in Hnot.
  destruct (py_eq v user_id) eqn:E.
  - apply py_eq_true in E. destruct Hnot. by left.
  - rewrite IH; [done|]. intros ?. destruct Hnot. by right.
Qed.

(** The loop stops at the first record with the id: it is rejected or
    updated in place, and the records around it stay. *)
Lemma update_loop_match (pre post : list record) (user : record) v user_id
    (updated_user : record) :
  Forall has_id pre → ¬ id_in user_id pre →
  user !! "id" = Some v → norm v = norm user_id →
  update_loop (pre ++ user :: post) user_id updated_user =
    rejected ← email_rejected updated_user;
    Ok (if (rejected : bool) then Rejected
        else Updated (pre ++ dict_update user updated_user :: post)).
Proof.
  intros Hpre Hnot Hv Heq.
  induction Hpre as [|u pre [x Hx] _ IH]; cbn; unfold getitem.
  - rewrite Hv. cbn. apply py_eq_true in Heq. rewrite Heq.
    by destruct (email_rejected updated_user) as [[]|].
  - rewrite Hx. cbn. rewrite (id_in_cons _ _ _ _ Hx) in Hnot.
    destruct (py_eq x user_id) eqn:E.
    + apply py_eq_true in E. destruct Hnot. by left.
    + rewrite IH; [|intros ?; destruct Hnot; by right].
      by destruct (email_rejected updated_user) as [[]|].
Qed.

(** A record with the id, the first one, when every record has an id. *)
Lemma id_in_split (us : list record) user_id :
  Forall has_id us → id_in user_id us →
  ∃ pre user post v, us = pre ++ user :: post ∧ Forall has_id pre
                     ∧ ¬ id_in user_id pre
                     ∧ user !! "id" = Some v ∧ norm v = norm user_id.
Proof.
  intros Hall Hin.
  destruct (first_with_id_total us user_id Hall) as [[_ [user Hu]] | [Hnot _]];
    [|done].
  apply first_with_id_Some_inv in Hu as (pre & post & v & ?).
  by exists pre, user, post, v.
Qed.

Lemma dict_update_lookup (user updated_user : record) key :
  dict_update user updated_user !! key =
    match updated_user !! key with
    | Some x => Some x
    | None => user !! key
    end.
Proof.
  unfold dict_update. rewrite lookup_union.
  by destruct (updated_user !! key), (user !! key).
Qed.

Section Update.
Context {document : Type} `{!Json document}.
Implicit Types (w : world document) (user : record) (us : list record).

Lemma update_user_no_match w user_id (updated_user : record) :
  Forall has_id (users (self w)) → ¬ id_in user_id (users (self w)) →
  update_user user_id updated_user w = Ok (false, w).
Proof.
  intros Hall Hnot. unfold update_user. run.
  rewrite update_loop_NoMatch by done. by run.
Qed.

Lemma update_user_match w pre user post v user_id (updated_user : record)
    (rejected : bool) :
  users (self w) = pre ++ user :: post →
  Forall has_id pre → ¬ id_in user_id pre →
  user !! "id" = Some v → norm v = norm user_id →
  email_rejected updated_user = Ok rejected →
  update_user user_id updated_user w =
    if rejected then Ok (false, printed msg_invalid w)
    else Ok (true, committed (pre ++ dict_update user updated_user :: post) w).
Proof.
  intros Hus Hpre Hnot Hv Heq Hrej. unfold update_user. run.
  rewrite Hus, (update_loop_match _ _ _ v) by done. rewrite Hrej. cbn.
  destruct rejected; by run.
Qed.

(** C7: [update_user] with an id that no record has returns [False] and
    changes nothing; with an id that a record has, and no invalid e-mail
    among the new fields, the first such record gets the new fields merged
    in (new values win, other keys stay), the list is saved, and the result
    is [True]. *)
Theorem C7_update_user w user_id (updated_user : record) :
  (Forall has_id (users (self w)) → ¬ id_in user_id (users (self w)) →
   update_user user_id updated_user w = Ok (false, w))
  ∧ (∀ pre user post v,
       users (self w) = pre ++ user :: post →
       Forall has_id pre → ¬ id_in user_id pre →
       user !! "id" = Some v → py_eq v user_id = true →
       email_rejected updated_user = Ok false →
       update_user user_id updated_user w
         = Ok (true, committed (pre ++ dict_update user updated_user :: post) w)
       ∧ ∀ key, dict_update user updated_user !! key =
                  match updated_user !! key with
                  | Some x => Some x
                  | None => user !! key
                  end).
Proof.
  split.
  - apply update_user_no_match.
  - intros pre user post v Hus Hpre Hnot Hv Heq%py_eq_true Hrej. split.
    + by rewrite (update_user_match w pre user post v user_id updated_user false).
    + apply dict_update_lookup.
Qed.

End Update.

Lemma ids_bob_alice : ids [bob; alice] = [VStr "1"; VStr "2"].
Proof. reflexivity. Qed.

Lemma C7_update_user_witness :
  update_user (VStr "3") {[ "age" := VInt 26 ]} (loaded [bob; alice])
    = Ok (false, loaded [bob; alice])
  ∧ update_user (VStr "2") {[ "age" := VInt 26 ]} (loaded [bob; alice])
    = Ok (true, committed [bob; dict_update alice {[ "age" := VInt 26 ]}]
                  (loaded [bob; alice]))
  ∧ dict_update alice {[ "age" := VInt 26 ]} !! "age" = Some (VInt 26)
  ∧ dict_update alice {[ "age" := VInt 26 ]} !! "email"
    = Some (VStr "alice@example.com").
Proof.
  destruct (C7_update_user (loaded [bob; alice]) (VStr "3") {[ "age" := VInt 26 ]})
    as [Hno _].
  destruct (C7_update_user (loaded [bob; alice]) (VStr "2") {[ "age" := VInt 26 ]})
    as [_ Hyes].
  destruct (Hyes [bob] alice [] (VStr "2")) as [Hrun Hkeys].
  - reflexivity.
  - repeat constructor. by exists (VStr "1").
  - unfold id_in. rewrite ids_bob. by intros [=]%list_elem_of_singleton.
  - reflexivity.
  - reflexivity.
  - reflexivity.
  - split_and!.
    + apply Hno.
      * repeat constructor; by eexists.
      * change (¬ norm (VStr "3") ∈ ids [bob; alice]). rewrite ids_bob_alice.
        intros [[=] | [=]%list_elem_of_singleton]%elem_of_cons.
    + exact Hrun.
    + by rewrite Hkeys.
    + by rewrite Hkeys.
Defined.

(** ** Invalid e-mail *)

Lemma validate_email_false_str (email : value) :
  validate_email email = Ok false →
  ∃ s, email = VStr s ∧ re_match email_regex s = false.
Proof. destruct email as [| | |s]; try done. intros [= H]. by exists s. Qed.

Section InvalidEmail.
Context {document : Type} `{!Json document}.
Implicit Types (w : world document) (user : record) (us : list record).

(** C6 (as amended): with an e-mail that fails [validate_email], on a store
    whose records all have an id, [create_user] and [update_user] return
    [False] and leave the list and the files as they are.  What is printed
    depends on the check that comes first.  [create_user] prints one line:
    for an id that is true, the duplicate line when a record has the id and
    the invalid-e-mail line when none has.  [update_user] prints the
    invalid-e-mail line when a record has the id, and nothing when none
    has. *)
Theorem C6_invalid_email_rejected w user_id email :
  validate_email email = Ok false →
  Forall has_id (users (self w)) →
  (∀ user, user !! "id" = Some user_id → user !! "email" = Some email →
     ∃ w' line, create_user user w = Ok (false, w') ∧ same_store w w'
           ∧ stdout w' = stdout w ++ [line]
           ∧ (truthy user_id = true →
              line = if decide (id_in user_id (users (self w)))
                     then msg_duplicate else msg_invalid))
  ∧ (∀ updated_user : record, updated_user !! "email" = Some email →
     ∃ w', update_user user_id updated_user w = Ok (false, w') ∧ same_store w w'
           ∧ stdout w' = stdout w ++
               (if decide (id_in user_id (users (self w)))
                then [msg_invalid] else [])).
Proof.
  intros (s & -> & Hs)%validate_email_false_str Hall. split.
  - intros user Hid Hemail.
    rewrite (create_user_spec w user user_id s) by done. rewrite Hs.
    unfold duplicate_check_fires.
    case_decide as Hd; eexists _, _; (split_and!; [done | done | done |]);
      intros Ht; rewrite Ht in Hd; by case_decide.
  - intros updated_user Hemail.
    assert (email_rejected updated_user = Ok true) as Hrej.
    { unfold email_rejected, validate_email. by rewrite Hemail, Hs. }
    case_decide as Hin.
    + destruct (id_in_split _ _ Hall Hin)
        as (pre & user & post & v & Hus & Hpre & Hnot & Hv & Heq).
      rewrite (update_user_match w pre user post v user_id updated_user true)
        by done.
      eexists; by split_and!.
    + rewrite update_user_no_match by done.
      eexists; split_and!; [done | done | by rewrite app_nil_r].
Qed.

End InvalidEmail.

Lemma C6_invalid_email_rejected_witness :
  (∃ w' line, create_user bad_bob (loaded [alice]) = Ok (false, w')
         ∧ same_store (loaded [alice]) w' ∧ stdout w' = [line]
         ∧ (true = true → line = msg_invalid))
  ∧ (∃ w', update_user (VStr "1") {[ "email" := VStr "not-an-email" ]}
             (loaded [alice]) = Ok (false, w')
           ∧ same_store (loaded [alice]) w' ∧ stdout w' = []).
Proof.
  destruct (C6_invalid_email_rejected (loaded [alice]) (VStr "1")
              (VStr "not-an-email")) as [Hcreate Hupdate].
  - reflexivity.
  - repeat constructor. by exists (VStr "2").
  - split.
    + apply (Hcreate bad_bob); reflexivity.
    + apply (Hupdate {[ "email" := VStr "not-an-email" ]}). reflexivity.
Defined.

(** C6, as first stated, fails: the e-mail of [bad_bob] is invalid, but
    Bob's id is taken, and [create_user] reports the duplicate id, not the
    invalid e-mail. *)
Lemma C6_counterexample :
  validate_email (VStr "not-an-email") = Ok false
  ∧ bad_bob !! "email" = Some (VStr "not-an-email")
  ∧ create_user bad_bob (loaded [bob])
    = Ok (false, printed msg_duplicate (loaded [bob]))
  ∧ create_user bad_bob (loaded [bob])
    ≠ Ok (false, printed msg_invalid (loaded [bob])).
Proof.
  assert (create_user bad_bob (loaded [bob])
          = Ok (false, printed msg_duplicate (loaded [bob]))) as Hrun
    by reflexivity.
  split_and!; [reflexivity | reflexivity | exact Hrun |].
  rewrite Hrun. intros [=].
Qed.

(** ** delete_user *)

Lemma dict_eq_id (y x : record) :
  dict_eq y x = true → norm <$> y !! "id" = norm <$> x !! "id".
Proof.
  intros H%bool_decide_eq_true. rewrite <- !lookup_fmap. by rewrite H.
Qed.

Lemma dict_eq_refl (x : record) : dict_eq x x = true.
Proof. by apply bool_decide_eq_true. Qed.

(** [remove] takes out the record the scan found: no record before it is
    equal to it, since none before it has its id. *)
Lemma list_remove_first (pre post : list record) (user : record) v user_id :
  Forall has_id pre → ¬ id_in user_id pre →
  user !! "id" = Some v → norm v = norm user_id →
  list_remove user (pre ++ user :: post) = Ok (pre ++ post).
Proof.
  intros Hpre Hnot Hv Heq.
  induction Hpre as [|u pre [x Hx] _ IH]; cbn.
  - by rewrite dict_eq_refl.
  - rewrite (id_in_cons _ _ _ _ Hx) in Hnot.
    destruct (dict_eq u user) eqn:E.
    + apply dict_eq_id in E. rewrite Hx, Hv in E. injection E as E.
      destruct Hnot. left. congruence.
    + rewrite IH; [done|]. intros ?. destruct Hnot. by right.
Qed.

Section Delete.
Context {document : Type} `{!Json document}.
Implicit Types (w : world document) (user : record) (us : list record).

Lemma delete_user_no_match w user_id :
  Forall has_id (users (self w)) → ¬ id_in user_id (users (self w)) →
  delete_user user_id w = Ok (false, w).
Proof.
  intros Hall Hnot. unfold delete_user. run.
  rewrite first_with_id_None by done. by run.
Qed.

Lemma delete_user_match w pre user post v user_id :
  users (self w) = pre ++ user :: post →
  Forall has_id pre → ¬ id_in user_id pre →
  user !! "id" = Some v → norm v = norm user_id →
  delete_user user_id w = Ok (true, committed (pre ++ post) w).
Proof.
  intros Hus Hpre Hnot Hv Heq. unfold delete_user. run.
  rewrite Hus, (first_with_id_Some _ _ _ v) by done. run.
  rewrite (list_remove_first _ _ _ v user_id) by done. by run.
Qed.

(** A successful [delete_user] took out the first record with the id. *)
Lemma delete_user_inv w user_id w' :
  delete_user user_id w = Ok (true, w') →
  ∃ pre user post v, users (self w) = pre ++ user :: post
                     ∧ ¬ id_in user_id pre
                     ∧ user !! "id" = Some v ∧ norm v = norm user_id
                     ∧ w' = committed (pre ++ post) w.
Proof.
  intros Hrun.
  destruct (first_with_id (users (self w)) user_id) as [[user|]|e] eqn:Hscan.
  - pose proof Hscan as (pre & post & v & Hus & Hpre & Hnot & Hv & Heq)
      %first_with_id_Some_inv.
    rewrite (delete_user_match w pre user post v) in Hrun by done.
    injection Hrun as <-. by exists pre, user, post, v.
  - unfold delete_user in Hrun. revert Hrun. run. rewrite Hscan. by run.
  - unfold delete_user in Hrun. revert Hrun. run. rewrite Hscan. by run.
Qed.

(** C2 (as amended): on a store whose records all have an id, no two of
    them the same one, a successful [delete_user] of an id that is true (not
    the empty string) is followed by a [read_user] of the id that returns
    [None]. *)
Theorem C2_delete_then_read w user_id w' :
  Forall has_id (users (self w)) → unique_ids (users (self w)) →
  truthy user_id = true →
  delete_user user_id w = Ok (true, w') →
  read_user (self w') user_id = Ok RNone.
Proof.
  intros Hall Huniq Ht
    (pre & user & post & v & Hus & Hnot & Hv & Heq & ->)%delete_user_inv.
  unfold read_user. rewrite Ht. cbn [committed set_files set_users self users].
  rewrite Hus in Hall, Huniq.
  apply Forall_app in Hall as [Hpre [_ Hpost]%Forall_cons].
  unfold unique_ids in Huniq.
  rewrite ids_app, (ids_cons_Some _ _ _ Hv), Heq in Huniq.
  apply NoDup_app in Huniq as (_ & _ & [Hpost_not _]%NoDup_cons).
  rewrite first_with_id_None; [done | by apply Forall_app |].
  unfold id_in in *. rewrite ids_app, elem_of_app. by intros [?|?].
Qed.

End Delete.

Lemma C2_delete_then_read_witness :
  read_user (self (committed [alice] (loaded [bob; alice]))) (VStr "1")
  = Ok RNone.
Proof.
  apply (C2_delete_then_read (loaded [bob; alice]) (VStr "1")).
  - repeat constructor; by eexists.
  - change (NoDup (ids [bob; alice])). rewrite ids_bob_alice.
    repeat constructor; [by intros [=]%list_elem_of_singleton | by intros ?%elem_of_nil].
  - reflexivity.
  - reflexivity.
Defined.

Lemma init_loaded (us : list record) :
  init "users.json" {[ "users.json" := us ]} = Ok (loaded us).
Proof. reflexivity. Qed.

(** C2, as first stated, fails: a storage file may hold two records of one
    id, and [load_users] takes what it finds; [delete_user] then takes out
    the first one only, and [read_user] returns the second. *)
Lemma C2_counterexample :
  init "users.json" {[ "users.json" := [bob; bobby] ]} = Ok (loaded [bob; bobby])
  ∧ delete_user (VStr "1") (loaded [bob; bobby])
    = Ok (true, committed [bobby] (loaded [bob; bobby]))
  ∧ read_user (self (committed [bobby] (loaded [bob; bobby]))) (VStr "1")
    = Ok (RUser bobby).
Proof. split_and!; reflexivity. Qed.

(** ** Uniqueness of ids *)

Lemma update_loop_Updated_inv (us us' : list record) user_id (updated_user : record) :
  update_loop us user_id updated_user = Ok (Updated us') →
  ∃ pre user post, us = pre ++ user :: post
                   ∧ us' = pre ++ dict_update user updated_user :: post.
Proof.
  revert us'. induction us as [|u us IH]; intros us'; [done|].
  cbn. unfold getitem. destruct (u !! "id") as [x|]; [|done]. cbn.
  destruct (py_eq x user_id).
  - destruct (email_rejected updated_user) as [[]|]; cbn; [done | | done].
    intros [= <-]. by exists [], u, us.
  - destruct (update_loop us user_id updated_user) as [[us''| |]|]; cbn;
      [|done..].
    intros [= <-]. destruct (IH us'' eq_refl) as (pre & user & post & -> & ->).
    by exists (u :: pre), user, post.
Qed.

Lemma dict_update_id (user updated_user : record) :
  updated_user !! "id" = None →
  dict_update user updated_user !! "id" = user !! "id".
Proof. intros Hno. by rewrite dict_update_lookup, Hno. Qed.

Lemma ids_cons_eq (u u' : record) (us : list record) :
  u !! "id" = u' !! "id" → ids (u :: us) = ids (u' :: us).
Proof. intros Heq. unfold ids. simpl. by rewrite Heq. Qed.

Section UniqueIds.
Context {document : Type} `{!Json document}.
Implicit Types (w : world document) (user : record) (us : list record).

(** A successful [create_user] passed the duplicate check and appended. *)
Lemma create_user_inv w user w' :
  Forall has_id (users (self w)) →
  create_user user w = Ok (true, w') →
  ∃ user_id, user !! "id" = Some user_id
             ∧ ¬ duplicate_check_fires user_id (users (self w))
             ∧ w' = committed (users (self w) ++ [user]) w.
Proof.
  intros Hall. unfold create_user, getitem.
  destruct (user !! "id") as [user_id|] eqn:Hid; run; [|done].
  destruct (read_user_fires (self w) user_id (λ _, Hall)) as (r & -> & Hr). run.
  destruct (truthy_result r) eqn:Et; run; [done|].
  destruct (user !! "email") as [email|]; run; [|done].
  destruct (validate_email email) as [[]|]; run; [|done..]. cbn [negb]. run.
  intros [= <-]. exists user_id. split_and!; [done | | done].
  intros Hd%Hr. congruence.
Qed.

(** [create_user] keeps the ids apart. *)
Theorem create_user_keeps_unique_ids w user w' :
  Forall has_id (users (self w)) → unique_ids (users (self w)) →
  create_user user w = Ok (true, w') →
  Forall has_id (users (self w')) ∧ unique_ids (users (self w')).
Proof.
  intros Hall Huniq (user_id & Hid & Hnot & ->)%create_user_inv; [|done].
  cbn [committed set_files set_users self users]. split.
  - apply Forall_app. split; [done|]. repeat constructor. by exists user_id.
  - unfold unique_ids in *. rewrite ids_app, (ids_cons_Some _ _ _ Hid).
    apply NoDup_app. split_and!; [done | | apply NoDup_singleton].
    intros x Hx ->%list_elem_of_singleton. apply Hnot.
    unfold duplicate_check_fires. destruct (truthy user_id); [done|].
    intros Hnil. rewrite Hnil in Hx. by apply elem_of_nil in Hx.
Qed.

(** [delete_user] keeps the ids apart. *)
Theorem delete_user_keeps_unique_ids w user_id w' :
  Forall has_id (users (self w)) → unique_ids (users (self w)) →
  delete_user user_id w = Ok (true, w') →
  Forall has_id (users (self w')) ∧ unique_ids (users (self w')).
Proof.
  intros Hall Huniq
    (pre & user & post & v & Hus & Hnot & Hv & Heq & ->)%delete_user_inv.
  cbn [committed set_files set_users self users].
  rewrite Hus in Hall, Huniq.
  apply Forall_app in Hall as [Hpre [_ Hpost]%Forall_cons]. split.
  - by apply Forall_app.
  - unfold unique_ids in *. rewrite ids_app in *.
    rewrite (ids_cons_Some _ _ _ Hv) in Huniq.
    apply NoDup_app in Huniq as (Hn1 & Hdisj & [_ Hn2]%NoDup_cons).
    apply NoDup_app. split_and!; [done | | done].
    intros x Hx Hx'. apply (Hdisj x Hx). by right.
Qed.

(** [update_user] keeps the ids apart when the new fields have no ['id']. *)
Theorem update_user_keeps_unique_ids w user_id (updated_user : record) w' :
  updated_user !! "id" = None →
  Forall has_id (users (self w)) → unique_ids (users (self w)) →
  update_user user_id updated_user w = Ok (true, w') →
  Forall has_id (users (self w')) ∧ unique_ids (users (self w')).
Proof.
  intros Hno Hall Huniq. unfold update_user. run.
  destruct (update_loop (users (self w)) user_id updated_user)
    as [[us'| |]|] eqn:Hloop; run; [|done..].
  intros [= <-]. cbn [committed set_files set_users self users].
  apply update_loop_Updated_inv in Hloop as (pre & user & post & Hus & ->).
  rewrite Hus in Hall, Huniq.
  pose proof (dict_update_id user updated_user Hno) as Hsame. split.
  - apply Forall_app in Hall as [Hpre [Hu Hpost]%Forall_cons].
    apply Forall_app. split; [done|]. constructor; [|done].
    unfold has_id. by rewrite Hsame.
  - unfold unique_ids in *. rewrite ids_app in *.
    by rewrite (ids_cons_eq _ user).
Qed.

End UniqueIds.

(** C1 (defect): [create_user] checks that the id is new, [update_user]
    does not.  Three successful operations on an empty store leave two
    records with the id ['1']. *)
Theorem C1_update_user_duplicates_id :
  let stolen : record := {[ "id" := VStr "1" ]} in
  let w1 := committed [bob] fresh in
  let w2 := committed [bob; alice] fresh in
  let w3 := committed [bob; dict_update alice stolen] fresh in
  create_user bob fresh = Ok (true, w1)
  ∧ create_user alice w1 = Ok (true, w2)
  ∧ update_user (VStr "2") stolen w2 = Ok (true, w3)
  ∧ ids (users (self w3)) = [VStr "1"; VStr "1"]
  ∧ ¬ unique_ids (users (self w3)).
Proof.
  split_and!; [reflexivity.. |].
  intros H. change (NoDup [VStr "1"; VStr "1"]) in H.
  apply NoDup_cons in H as [Hfirst _]. apply Hfirst. by left.
Qed.

(** ** Saving and loading *)

Section RoundTrip.
Context {document : Type} `{!Json document}.
Implicit Types (w : world document) (us : list record).

(** What the store needs from the json module: [json.load] reads back the
    list that [json.dump] wrote. *)
Hypothesis json_round_trip : ∀ us, json_load (json_dump us) = Ok us.

(** C8: after [save_users] the file of the store holds the list: a
    [load_users] into the same object, whatever its list has become, and a
    new [UserManager] on the same file name both get the list as it was
    saved, record by record and in the same order. *)
Theorem C8_save_then_load w :
  ∃ w1, save_users w = Ok (tt, w1)
        ∧ users (self w1) = users (self w)
        ∧ (∀ us, load_users (set_users us w1) = Ok (tt, w1))
        ∧ ∃ w2, init (filename (self w)) (files w1) = Ok w2
                ∧ users (self w2) = users (self w).
Proof.
  destruct w as [[name us0] fs out].
  eexists. split; [reflexivity|]. split; [reflexivity|]. split.
  - intros us. unfold load_users, set_users, set_files. cbn.
    rewrite lookup_insert_eq. by rewrite json_round_trip.
  - unfold init, load_users, set_files, set_users. cbn.
    rewrite lookup_insert_eq. rewrite json_round_trip. by eexists.
Qed.

End RoundTrip.

Lemma C8_save_then_load_witness :
  ∃ w1, save_users (loaded [bob; alice]) = Ok (tt, w1)
        ∧ users (self w1) = [bob; alice]
        ∧ (∀ us, load_users (set_users us w1) = Ok (tt, w1))
        ∧ ∃ w2, init "users.json" (files w1) = Ok w2
                ∧ users (self w2) = [bob; alice].
Proof.
  apply (@C8_save_then_load (list record) array_json).
  intros us. reflexivity.
Defined.

(** ** search_users *)

Lemma result_bind_Ok {A B} (a : A) (f : A → result B) : (Ok a ≫= f) = f a.
Proof. reflexivity. Qed.

(** A comprehension whose condition never raises is a filter. *)
Lemma comprehension_filter cond (p : record → bool) (us : list record) :
  (∀ user, user ∈ us → cond user = Ok (p user)) →
  comprehension cond us = Ok (filter (λ user, p user = true) us).
Proof.
  induction us as [|u us IH]; intros Hcond; [done|].
  cbn [comprehension]. rewrite (Hcond u) by left. rewrite result_bind_Ok.
  rewrite IH by (intros user Hin; apply Hcond; by right).
  rewrite result_bind_Ok, filter_cons.
  destruct (p u) eqn:E; case_decide; done.
Qed.

Lemma filter_all (p : record → bool) (us : list record) :
  (∀ user, p user = true) → filter (λ user, p user = true) us = us.
Proof.
  intros Hp. induction us as [|u us IH]; [done|].
  by rewrite filter_cons_True, IH.
Qed.

(** One pass of [search_users] over a name or an e-mail. *)
Lemma text_pass key wanted (results : list record) :
  text_criterion wanted →
  (∀ user, user ∈ results → ∃ s, user !! key = Some (VStr s)) →
  (if truthy wanted then comprehension (same_lower key wanted) results
   else Ok results)
  = Ok (filter (λ user, text_matches key wanted user = true) results).
Proof.
  intros [-> | (n & -> & Hn)] Hfield.
  - cbn. by rewrite filter_all.
  - cbn. rewrite bool_decide_eq_false_2 by done. cbn.
    apply comprehension_filter. intros user [s Hs]%Hfield.
    unfold same_lower, getitem, text_matches. by rewrite Hs.
Qed.

(** The pass of [search_users] over the age. *)
Lemma age_pass wanted (results : list record) :
  age_criterion wanted →
  (∀ user, user ∈ results → is_Some (user !! "age")) →
  (if truthy wanted then comprehension (same_age wanted) results
   else Ok results)
  = Ok (filter (λ user, age_matches wanted user = true) results).
Proof.
  intros [-> | (z & -> & Hz)] Hfield.
  - cbn. by rewrite filter_all.
  - cbn. apply Z.eqb_neq in Hz. rewrite Hz. cbn.
    apply comprehension_filter. intros user [v Hv]%Hfield.
    unfold same_age, getitem, age_matches. by rewrite Hv.
Qed.

(** What [search_users] returns when every criterion is either not given
    or one that it applies, on records that have the three fields: the
    records that satisfy all the given criteria, in the order of the list. *)
Theorem search_users_spec (this : UserManager) name email age :
  text_criterion name → text_criterion email → age_criterion age →
  Forall complete (users this) →
  search_users this name email age
  = Ok (filter (λ user, satisfies name email age user = true) (users this)).
Proof.
  intros Hname Hemail Hage Hall. rewrite Forall_forall in Hall.
  unfold search_users.
  rewrite (text_pass "name") by (try done; intros u Hu; by apply Hall).
  cbn.
  rewrite (text_pass "email")
    by (try done; intros u [_ Hu]%list_elem_of_filter; by apply Hall).
  cbn.
  rewrite age_pass
    by (try done; intros u [_ [_ Hu]%list_elem_of_filter]%list_elem_of_filter;
        by apply Hall).
  cbn. f_equal. rewrite !list_filter_filter. apply list_filter_iff.
  intros user. unfold satisfies. rewrite !andb_true_iff. tauto.
Qed.

(** C3 (defect): an age of [0] is a criterion, and neither Bob (30) nor
    Alice (25) satisfies it, but [search_users(age=0)] returns them both:
    [if age:] takes [0] for "not given". *)
Theorem C3_search_users_age_zero_ignored :
  search_users (self (loaded [bob; alice])) VNone VNone (VInt 0)
  = Ok [bob; alice]
  ∧ filter (λ user, satisfies VNone VNone (VInt 0) user = true) [bob; alice] = [].
Proof. split; reflexivity. Qed.

(** ** Worked examples *)

Example validate_email_plain : validate_email (VStr "bob@example.com") = Ok true.
Proof. reflexivity. Qed.

Example validate_email_not_an_email : validate_email (VStr "not-an-email") = Ok false.
Proof. reflexivity. Qed.

Example validate_email_no_domain_dot : validate_email (VStr "bob@example") = Ok false.
Proof. reflexivity. Qed.

Example validate_email_not_a_string : validate_email (VInt 7) = Raise TypeError.
Proof. reflexivity. Qed.

Example lower_mixed : lower "Alice O'Neil" = "alice o'neil".
Proof. reflexivity. Qed.

Example search_by_name_any_case :
  search_users (self (loaded [bob; alice; bobby])) (VStr "BOBBY") VNone VNone
  = Ok [bobby].
Proof. reflexivity. Qed.

Example search_by_name_and_age :
  search_users (self (loaded [bob; alice; bobby])) (VStr "bob") VNone (VInt 30)
  = Ok [bob]
  ∧ search_users (self (loaded [bob; alice; bobby])) (VStr "bob") VNone (VInt 31)
    = Ok [].
Proof. split; reflexivity. Qed.

(** The example of the specification: create, read, update the age, read,
    delete, read. *)
Example create_read_update_delete :
  let older : record := {[ "age" := VInt 31 ]} in
  let w1 := committed [bob] fresh in
  let w2 := committed [dict_update bob older] fresh in
  let w3 := committed [] fresh in
  create_user bob fresh = Ok (true, w1)
  ∧ read_user (self w1) (VStr "1") = Ok (RUser bob)
  ∧ update_user (VStr "1") older w1 = Ok (true, w2)
  ∧ read_user (self w2) (VStr "1") = Ok (RUser (dict_update bob older))
  ∧ dict_update bob older !! "age" = Some (VInt 31)
  ∧ dict_update bob older !! "email" = bob !! "email"
  ∧ delete_user (VStr "1") w2 = Ok (true, w3)
  ∧ read_user (self w3) (VStr "1") = Ok RNone.
Proof. repeat split; reflexivity. Qed.

(** A record without an ['id'] makes the scan raise. *)
Example read_user_key_error :
  read_user {| filename := "users.json"; users := [{[ "name" := VStr "x" ]}] |}
    (VStr "1")
  = Raise (KeyError "id").
Proof. reflexivity. Qed.

(** * Further properties of the methods *)

(** ** What an accepted address looks like *)

Lemma count_char_app c (s r : string) :
  count_char c (s +:+ r) = count_char c s + count_char c r.
Proof.
  induction s as [|c' s IH]; [done|].
  rewrite app_cons. simpl. rewrite IH. lia.
Qed.

Lemma count_char_outside cls c (s : string) :
  cls c = false → all_in cls s = true → count_char c s = 0.
Proof.
  intros Hc. induction s as [|c' s IH]; [done|]. simpl.
  intros [Hc' Hall]%andb_true_iff. rewrite IH by done.
  case_bool_decide; [congruence | done].
Qed.

(** An address that [validate_email] accepts has exactly one [@] and no
    blank. *)
Theorem validate_email_one_at (s : string) :
  validate_email (VStr s) = Ok true →
  count_char "@" s = 1 ∧ count_char " " s = 0.
Proof.
  intros [= H]. apply match_email_rest in H
    as (l & d & t & r & -> & [_ Hl] & [_ Hd] & [_ Ht] & Hr).
  rewrite !count_char_app.
  rewrite !(count_char_outside local_class _ l),
    !(count_char_outside domain_class _ d),
    !(count_char_outside tail_class _ t) by done.
  by apply at_eol_spec in Hr as [-> | ->].
Qed.

Lemma validate_email_one_at_witness :
  count_char "@" "bob@example.com" = 1 ∧ count_char " " "bob@example.com" = 0.
Proof. apply (validate_email_one_at "bob@example.com"). reflexivity. Defined.

(** ** read_user *)

(** [read_user] with an id that is true, on records that all have an id:
    [None] exactly when no record has the id, and otherwise the first record
    that has it. *)
Theorem read_user_spec (this : UserManager) user_id :
  truthy user_id = true → Forall has_id (users this) →
  (read_user this user_id = Ok RNone ↔ ¬ id_in user_id (users this))
  ∧ (∀ user, read_user this user_id = Ok (RUser user) ↔
       ∃ pre post v, users this = pre ++ user :: post
                     ∧ ¬ id_in user_id pre
                     ∧ user !! "id" = Some v ∧ py_eq v user_id = true).
Proof.
  intros Ht Hall. unfold read_user. rewrite Ht. split.
  - destruct (first_with_id_total (users this) user_id Hall)
      as [[Hin [u ->]] | [Hnot ->]]; cbn; split; done.
  - intros user. split.
    + destruct (first_with_id (users this) user_id) as [[u|]|] eqn:E; cbn;
        [|done..].
      intros [= ->].
      apply first_with_id_Some_inv in E as (pre & post & v & ? & _ & ? & ? & ?).
      exists pre, post, v. by rewrite py_eq_true.
    + intros (pre & post & v & Hus & Hnot & Hv & Heq%py_eq_true).
      rewrite Hus in Hall |- *.
      apply Forall_app in Hall as [Hpre _].
      by rewrite (first_with_id_Some pre post user v).
Qed.

Lemma read_user_spec_witness :
  read_user (self (loaded [bob; alice])) (VStr "3") = Ok RNone
  ∧ read_user (self (loaded [bob; alice])) (VStr "2") = Ok (RUser alice).
Proof.
  destruct (read_user_spec (self (loaded [bob; alice])) (VStr "3")) as [Hnone _];
    [reflexivity | repeat constructor; by eexists |].
  destruct (read_user_spec (self (loaded [bob; alice])) (VStr "2")) as [_ Hsome];
    [reflexivity | repeat constructor; by eexists |].
  split.
  - apply Hnone. change (¬ norm (VStr "3") ∈ ids [bob; alice]).
    rewrite ids_bob_alice.
    intros [[=] | [=]%list_elem_of_singleton]%elem_of_cons.
  - apply Hsome. exists [bob], [], (VStr "2"). split_and!; [done | | done | done].
    change (¬ norm (VStr "2") ∈ ids [bob]). rewrite ids_bob.
    by intros [=]%list_elem_of_singleton.
Defined.

(** ** Every outcome of create_user *)

Section Outcomes.
Context {document : Type} `{!Json document}.
Implicit Types (w : world document) (user : record) (us : list record).

(** [create_user] on any record, in the order in which it looks at it: no
    ['id'] raises [KeyError]; then the duplicate check; then no ['email']
    raises [KeyError], an e-mail that is no string raises [TypeError], an
    invalid one is refused; and only then the record is appended and the
    list saved.  A record that is refused as a duplicate is never asked for
    its e-mail. *)
Theorem create_user_outcomes w user :
  (∀ user_id, user !! "id" = Some user_id → truthy user_id = true →
              Forall has_id (users (self w))) →
  create_user user w =
    match user !! "id" with
    | None => Raise (KeyError "id")
    | Some user_id =>
        if decide (duplicate_check_fires user_id (users (self w)))
        then Ok (false, printed msg_duplicate w)
        else match user !! "email" with
             | None => Raise (KeyError "email")
             | Some email =>
                 match validate_email email with
                 | Raise e => Raise e
                 | Ok true => Ok (true, committed (users (self w) ++ [user]) w)
                 | Ok false => Ok (false, printed msg_invalid w)
                 end
             end
    end.
Proof.
  intros Hwf. unfold create_user, getitem.
  destruct (user !! "id") as [user_id|] eqn:Hid; run.
  destruct (read_user_fires (self w) user_id (Hwf user_id eq_refl))
    as (r & -> & Hr). run.
  destruct (truthy_result r) eqn:Et; case_decide as Hd.
  - by run.
  - destruct Hd. by apply Hr.
  - apply Hr in Hd. congruence.
  - destruct (user !! "email") as [email|]; run.
    destruct (validate_email email) as [[]|]; by run.
Qed.

(** A successful [create_user], on any store: the record has an id and an
    e-mail that is valid, and the new world is the old one with the record
    appended and the list saved. *)
Lemma create_user_success w user w' :
  create_user user w = Ok (true, w') →
  has_id user ∧ valid_email_field user
  ∧ w' = committed (users (self w) ++ [user]) w.
Proof.
  unfold create_user, getitem.
  destruct (user !! "id") as [user_id|] eqn:Hid; run; [|done].
  destruct (read_user (self w) user_id) as [r|]; run; [|done].
  destruct (truthy_result r); run; [done|].
  destruct (user !! "email") as [email|] eqn:Hemail; run; [|done].
  destruct (validate_email email) as [[]|] eqn:Hvalid; run; [|done..].
  cbn [negb]. run. intros [= <-]. split_and!; [by exists user_id | | done].
  by exists email.
Qed.

Lemma create_user_failure w user w' :
  create_user user w = Ok (false, w') → same_store w w'.
Proof.
  unfold create_user, getitem.
  destruct (user !! "id") as [user_id|]; run; [|done].
  destruct (read_user (self w) user_id) as [r|]; run; [|done].
  destruct (truthy_result r); run; [by intros [= <-]|].
  destruct (user !! "email") as [email|]; run; [|done].
  destruct (validate_email email) as [[]|]; run; [done | | done].
  cbn [negb]. run. by intros [= <-].
Qed.

(** The loop of [update_user] that ends with an update: the first record
    with the id got the new fields, whose e-mail, if there is one, is
    valid. *)
Lemma update_loop_Updated (us us' : list record) user_id (updated_user : record) :
  update_loop us user_id updated_user = Ok (Updated us') →
  ∃ pre user post v, us = pre ++ user :: post
                     ∧ Forall has_id pre ∧ ¬ id_in user_id pre
                     ∧ user !! "id" = Some v ∧ norm v = norm user_id
                     ∧ email_rejected updated_user = Ok false
                     ∧ us' = pre ++ dict_update user updated_user :: post.
Proof.
  revert us'. induction us as [|u us IH]; intros us'; [done|].
  cbn. unfold getitem. destruct (u !! "id") as [x|] eqn:Hx; [|done]. cbn.
  destruct (py_eq x user_id) eqn:E.
  - destruct (email_rejected updated_user) as [[]|]; cbn; [done | | done].
    intros [= <-]. apply py_eq_true in E. exists [], u, us, x.
    split_and!; [done | constructor | apply not_id_in_nil | done..].
  - destruct (update_loop us user_id updated_user) as [[us''| |]|]; cbn;
      [|done..].
    intros [= <-].
    destruct (IH us'' eq_refl)
      as (pre & user & post & v & -> & Hpre & Hnot & Hv & Heq & Hrej & ->).
    exists (u :: pre), user, post, v. split_and!; [done | | | done..].
    + constructor; [by exists x | done].
    + rewrite (id_in_cons _ _ _ _ Hx). intros [Hn | Hin]; [|done].
      apply py_eq_true in Hn. congruence.
Qed.

(** A successful [update_user], on any store. *)
Lemma update_user_success w user_id (updated_user : record) w' :
  update_user user_id updated_user w = Ok (true, w') →
  ∃ pre user post v, users (self w) = pre ++ user :: post
                     ∧ Forall has_id pre ∧ ¬ id_in user_id pre
                     ∧ user !! "id" = Some v ∧ norm v = norm user_id
                     ∧ email_rejected updated_user = Ok false
                     ∧ w' = committed (pre ++ dict_update user updated_user :: post) w.
Proof.
  unfold update_user. run.
  destruct (update_loop (users (self w)) user_id updated_user)
    as [[us'| |]|] eqn:Hloop; run; [|done..].
  intros [= <-].
  apply update_loop_Updated in Hloop
    as (pre & user & post & v & ? & ? & ? & ? & ? & ? & ->).
  by exists pre, user, post, v.
Qed.

Lemma update_user_failure w user_id (updated_user : record) w' :
  update_user user_id updated_user w = Ok (false, w') → same_store w w'.
Proof.
  unfold update_user. run.
  destruct (update_loop (users (self w)) user_id updated_user)
    as [[us'| |]|]; run; [done | | | done]; by intros [= <-].
Qed.

Lemma delete_user_failure w user_id w' :
  delete_user user_id w = Ok (false, w') → same_store w w'.
Proof.
  unfold delete_user. run.
  destruct (first_with_id (users (self w)) user_id) as [[user|]|]; run;
    [| by intros [= <-] | done].
  destruct (list_remove user (users (self w))); by run.
Qed.


(** A method that returns [True] has written the new list to the file of
    the store, and has done nothing else to the world: the file name stays,
    every other file stays, nothing is printed. *)
Theorem success_is_saved w w' :
  (∃ user, create_user user w = Ok (true, w'))
  ∨ (∃ user_id (updated_user : record),
       update_user user_id updated_user w = Ok (true, w'))
  ∨ (∃ user_id, delete_user user_id w = Ok (true, w')) →
  filename (self w') = filename (self w)
  ∧ files w' = <[filename (self w) := json_dump (users (self w'))]> (files w)
  ∧ stdout w' = stdout w.
Proof.
  intros [[user H] | [(user_id & updated_user & H) | [user_id H]]].
  - by apply create_user_success in H as (_ & _ & ->).
  - by apply update_user_success in H as (? & ? & ? & ? & _ & _ & _ & _ & _ & _ & ->).
  - by apply delete_user_inv in H as (? & ? & ? & ? & _ & _ & _ & _ & ->).
Qed.

End Outcomes.

Lemma create_user_outcomes_witness :
  create_user {[ "name" := VStr "x" ]} (loaded [bob]) = Raise (KeyError "id")
  ∧ create_user {[ "id" := VStr "9" ]} (loaded [bob]) = Raise (KeyError "email")
  ∧ create_user {[ "id" := VStr "1" ]} (loaded [bob])
    = Ok (false, printed msg_duplicate (loaded [bob]))
  ∧ create_user {[ "id" := VStr "9"; "email" := VInt 7 ]} (loaded [bob])
    = Raise TypeError.
Proof.
  assert (∀ user : record, (∀ user_id, user !! "id" = Some user_id →
            truthy user_id = true → Forall has_id (users (self (loaded [bob])))))
    as Hwf by (intros; repeat constructor; by eexists).
  split_and!.
  - by rewrite (create_user_outcomes (loaded [bob]) {[ "name" := VStr "x" ]} (Hwf _)).
  - by rewrite (create_user_outcomes (loaded [bob]) {[ "id" := VStr "9" ]} (Hwf _)).
  - by rewrite (create_user_outcomes (loaded [bob]) {[ "id" := VStr "1" ]} (Hwf _)).
  - by rewrite (create_user_outcomes (loaded [bob])
                  {[ "id" := VStr "9"; "email" := VInt 7 ]} (Hwf _)).
Defined.


Lemma success_is_saved_witness :
  files (committed [bob] fresh) = {[ "users.json" := [bob] ]}
  ∧ stdout (committed [bob] fresh) = [].
Proof.
  destruct (success_is_saved fresh (committed [bob] fresh)) as (_ & Hfiles & Hout).
  - left. exists bob. reflexivity.
  - split; [|exact Hout]. rewrite Hfiles. reflexivity.
Defined.

(** ** How the methods compose *)

(** A record with another id does not matter to the scan. *)
Lemma first_with_id_skip (pre post : list record) (u : record) v other :
  u !! "id" = Some v → norm v ≠ norm other →
  first_with_id (pre ++ u :: post) other = first_with_id (pre ++ post) other.
Proof.
  intros Hv Hne. induction pre as [|x pre IH]; cbn; unfold getitem.
  - rewrite Hv. cbn. destruct (py_eq v other) eqn:E; [|done].
    by apply py_eq_true in E.
  - destruct (x !! "id") as [y|]; [|done]. cbn. by destruct (py_eq y other).
Qed.

Lemma insert_committed {document} `{!Json document} (us us' : list record)
    (w : world document) :
  committed us (committed us' w) = committed us w.
Proof.
  unfold committed, set_files, set_users. cbn. by rewrite insert_insert_eq.
Qed.

Lemma dict_update_twice (user updated_user : record) :
  dict_update (dict_update user updated_user) updated_user
  = dict_update user updated_user.
Proof.
  apply map_eq. intros key. rewrite !dict_update_lookup.
  by destruct (updated_user !! key).
Qed.

Lemma dict_update_empty (user : record) : dict_update user ∅ = user.
Proof. unfold dict_update. by rewrite (left_id_L ∅ (∪)). Qed.

Section Compose.
Context {document : Type} `{!Json document}.
Implicit Types (w : world document) (user : record) (us : list record).

(** After a successful [create_user] of a record with an id that is true,
    [read_user] of that id returns the record. *)
Theorem create_then_read w user user_id w' :
  Forall has_id (users (self w)) →
  user !! "id" = Some user_id → truthy user_id = true →
  create_user user w = Ok (true, w') →
  read_user (self w') user_id = Ok (RUser user).
Proof.
  intros Hall Hid Ht Hrun.
  destruct (create_user_inv w user w' Hall Hrun) as (x & Hx & Hnot & ->).
  assert (x = user_id) as -> by congruence.
  unfold duplicate_check_fires in Hnot. rewrite Ht in Hnot.
  unfold read_user. rewrite Ht. cbn [committed set_files set_users self users].
  by rewrite (first_with_id_Some _ [] user user_id).
Qed.

(** After a successful [update_user] with an id that is true and new
    fields without an ['id'], [read_user] of the id returns what it returned
    before, with the new fields merged in. *)
Theorem update_then_read w user_id (updated_user : record) w' :
  truthy user_id = true → updated_user !! "id" = None →
  update_user user_id updated_user w = Ok (true, w') →
  ∃ user, read_user (self w) user_id = Ok (RUser user)
          ∧ read_user (self w') user_id
            = Ok (RUser (dict_update user updated_user)).
Proof.
  intros Ht Hno
    (pre & user & post & v & Hus & Hpre & Hnot & Hv & Heq & _ & ->)
    %update_user_success.
  exists user. unfold read_user. rewrite Ht, Hus.
  cbn [committed set_files set_users self users].
  rewrite (first_with_id_Some pre post user v) by done.
  rewrite (first_with_id_Some pre post (dict_update user updated_user) v); try done.
  by rewrite dict_update_id.
Qed.

(** What [read_user] returns for an id is not changed by a successful
    [create_user], [update_user] (with new fields without an ['id']) or
    [delete_user] for another id. *)
Theorem other_ids_unaffected w w' user_id other :
  truthy other = true → norm other ≠ norm user_id →
  (∀ user, user !! "id" = Some user_id → create_user user w = Ok (true, w') →
     read_user (self w') other = read_user (self w) other)
  ∧ (∀ updated_user : record, updated_user !! "id" = None →
     update_user user_id updated_user w = Ok (true, w') →
     read_user (self w') other = read_user (self w) other)
  ∧ (delete_user user_id w = Ok (true, w') →
     read_user (self w') other = read_user (self w) other).
Proof.
  intros Ht Hne. unfold read_user. rewrite Ht. split_and!.
  - intros user Hid (_ & _ & ->)%create_user_success.
    cbn [committed set_files set_users self users].
    rewrite (first_with_id_skip _ [] user user_id) by done.
    by rewrite app_nil_r.
  - intros updated_user Hno
      (pre & user & post & v & -> & _ & _ & Hv & Heq & _ & ->)%update_user_success.
    cbn [committed set_files set_users self users].
    rewrite (first_with_id_skip pre post user v) by congruence.
    rewrite (first_with_id_skip pre post (dict_update user updated_user) v);
      [done | by rewrite dict_update_id | congruence].
  - intros (pre & user & post & v & -> & _ & Hv & Heq & ->)%delete_user_inv.
    cbn [committed set_files set_users self users].
    by rewrite (first_with_id_skip pre post user v) by congruence.
Qed.

(** Doing a successful [update_user] again changes nothing more (the new
    fields having no ['id']). *)
Theorem update_user_twice w user_id (updated_user : record) w' :
  updated_user !! "id" = None →
  update_user user_id updated_user w = Ok (true, w') →
  update_user user_id updated_user w' = Ok (true, w').
Proof.
  intros Hno
    (pre & user & post & v & Hus & Hpre & Hnot & Hv & Heq & Hrej & ->)
    %update_user_success.
  rewrite (update_user_match _ pre (dict_update user updated_user) post v
             user_id updated_user false); try done.
  - by rewrite dict_update_twice, insert_committed.
  - by rewrite dict_update_id.
Qed.

(** [delete_user] undoes [create_user]: after a successful [create_user] of
    a record with an id that is true, [delete_user] of the id succeeds and
    the list is the one from before. *)
Theorem create_then_delete w user user_id w' :
  Forall has_id (users (self w)) →
  user !! "id" = Some user_id → truthy user_id = true →
  create_user user w = Ok (true, w') →
  delete_user user_id w' = Ok (true, committed (users (self w)) w).
Proof.
  intros Hall Hid Ht Hrun.
  destruct (create_user_inv w user w' Hall Hrun) as (x & Hx & Hnot & ->).
  assert (x = user_id) as -> by congruence.
  unfold duplicate_check_fires in Hnot. rewrite Ht in Hnot.
  rewrite (delete_user_match _ (users (self w)) user [] user_id user_id);
    try done.
  by rewrite app_nil_r, insert_committed.
Qed.

(** [update_user] with no new fields at all, for an id that a record has:
    the list stays as it is, it is saved, and the result is [True]. *)
Theorem update_user_no_fields w user_id :
  Forall has_id (users (self w)) → id_in user_id (users (self w)) →
  update_user user_id ∅ w = Ok (true, committed (users (self w)) w).
Proof.
  intros Hall Hin.
  destruct (id_in_split _ _ Hall Hin)
    as (pre & user & post & v & Hus & Hpre & Hnot & Hv & Heq).
  rewrite (update_user_match w pre user post v user_id ∅ false) by done.
  by rewrite dict_update_empty, Hus.
Qed.

End Compose.

Lemma create_then_read_witness :
  read_user (self (committed [bob; alice] (loaded [bob]))) (VStr "2")
  = Ok (RUser alice).
Proof.
  apply (create_then_read (loaded [bob]) alice (VStr "2")).
  - repeat constructor. by eexists.
  - reflexivity.
  - reflexivity.
  - reflexivity.
Defined.

Lemma update_then_read_witness :
  ∃ user, read_user (self (loaded [bob; alice])) (VStr "2") = Ok (RUser user)
          ∧ read_user
              (self (committed [bob; dict_update alice {[ "age" := VInt 26 ]}]
                       (loaded [bob; alice]))) (VStr "2")
            = Ok (RUser (dict_update user {[ "age" := VInt 26 ]})).
Proof.
  apply (update_then_read (loaded [bob; alice]) (VStr "2") {[ "age" := VInt 26 ]});
    reflexivity.
Defined.

Lemma other_ids_unaffected_witness :
  read_user (self (committed [bob] (loaded [bob; alice]))) (VStr "1")
  = read_user (self (loaded [bob; alice])) (VStr "1").
Proof.
  destruct (other_ids_unaffected (loaded [bob; alice])
              (committed [bob] (loaded [bob; alice])) (VStr "2") (VStr "1"))
    as (_ & _ & Hdelete); [reflexivity | discriminate |].
  apply Hdelete. reflexivity.
Defined.

Lemma update_user_twice_witness :
  update_user (VStr "2") {[ "age" := VInt 26 ]}
    (committed [bob; dict_update alice {[ "age" := VInt 26 ]}] (loaded [bob; alice]))
  = Ok (true, committed [bob; dict_update alice {[ "age" := VInt 26 ]}]
                (loaded [bob; alice])).
Proof.
  apply (update_user_twice (loaded [bob; alice])); reflexivity.
Defined.

Lemma create_then_delete_witness :
  delete_user (VStr "2") (committed [bob; alice] (loaded [bob]))
  = Ok (true, committed [bob] (loaded [bob])).
Proof.
  apply (create_then_delete (loaded [bob]) alice (VStr "2")).
  - repeat constructor. by eexists.
  - reflexivity.
  - reflexivity.
  - reflexivity.
Defined.

Lemma update_user_no_fields_witness :
  update_user (VStr "1") ∅ (loaded [bob; alice])
  = Ok (true, committed [bob; alice] (loaded [bob; alice])).
Proof.
  apply (update_user_no_fields (loaded [bob; alice]) (VStr "1")).
  - repeat constructor; by eexists.
  - change (norm (VStr "1") ∈ ids [bob; alice]). rewrite ids_bob_alice. by left.
Defined.

(** ** delete_user, all of it *)

Section DeleteSpec.
Context {document : Type} `{!Json document}.
Implicit Types (w : world document) (user : record) (us : list record).

(** [delete_user] with an id that no record has returns [False] and changes
    nothing; with an id that a record has, the first such record is taken
    out, the others stay in their order, the list is saved, and the result
    is [True]. *)
Theorem delete_user_spec w user_id :
  (Forall has_id (users (self w)) → ¬ id_in user_id (users (self w)) →
   delete_user user_id w = Ok (false, w))
  ∧ (∀ pre user post v,
       users (self w) = pre ++ user :: post →
       Forall has_id pre → ¬ id_in user_id pre →
       user !! "id" = Some v → py_eq v user_id = true →
       delete_user user_id w = Ok (true, committed (pre ++ post) w)).
Proof.
  split.
  - apply delete_user_no_match.
  - intros pre user post v Hus Hpre Hnot Hv Heq%py_eq_true.
    by apply (delete_user_match w pre user post v).
Qed.

End DeleteSpec.

Lemma delete_user_spec_witness :
  delete_user (VStr "3") (loaded [bob; bobby; alice])
    = Ok (false, loaded [bob; bobby; alice])
  ∧ delete_user (VStr "1") (loaded [bob; bobby; alice])
    = Ok (true, committed [bobby; alice] (loaded [bob; bobby; alice])).
Proof.
  destruct (delete_user_spec (loaded [bob; bobby; alice]) (VStr "3")) as [Hno _].
  destruct (delete_user_spec (loaded [bob; bobby; alice]) (VStr "1")) as [_ Hyes].
  split.
  - apply Hno.
    + repeat constructor; by eexists.
    + change (¬ norm (VStr "3") ∈ [VStr "1"; VStr "1"; VStr "2"]).
      intros [[=] | [[=] | [=]%list_elem_of_singleton]%elem_of_cons]%elem_of_cons.
  - apply (Hyes [] bob [bobby; alice] (VStr "1"));
      [reflexivity | constructor | apply not_id_in_nil | reflexivity..].
Defined.

(** ** What the methods keep *)

Lemma email_rejected_false (updated_user : record) email :
  email_rejected updated_user = Ok false →
  updated_user !! "email" = Some email → validate_email email = Ok true.
Proof.
  unfold email_rejected. intros H Hemail. rewrite Hemail in H.
  by destruct (validate_email email) as [[]|].
Qed.

Lemma valid_email_field_update (user updated_user : record) :
  email_rejected updated_user = Ok false →
  valid_email_field user → valid_email_field (dict_update user updated_user).
Proof.
  intros Hrej (email & Hemail & Hvalid). unfold valid_email_field.
  rewrite dict_update_lookup.
  destruct (updated_user !! "email") as [new|] eqn:Hnew.
  - exists new. split; [done|]. by apply (email_rejected_false updated_user).
  - by exists email.
Qed.

Section Kept.
Context {document : Type} `{!Json document}.
Implicit Types (w : world document) (user : record) (us : list record).

(** One call keeps the e-mails valid. *)
Lemma emails_valid_step w w' b :
  Forall valid_email_field (users (self w)) →
  (∃ user, create_user user w = Ok (b, w'))
  ∨ (∃ user_id (updated_user : record),
       update_user user_id updated_user w = Ok (b, w'))
  ∨ (∃ user_id, delete_user user_id w = Ok (b, w')) →
  Forall valid_email_field (users (self w')).
Proof.
  intros Hall Hrun. destruct b.
  - destruct Hrun as [[user H] | [(user_id & updated_user & H) | [user_id H]]].
    + apply create_user_success in H as (_ & Hvalid & ->).
      cbn [committed set_files set_users self users].
      apply Forall_app. split; [done | by repeat constructor].
    + apply update_user_success in H
        as (pre & user & post & v & Hus & _ & _ & _ & _ & Hrej & ->).
      cbn [committed set_files set_users self users]. rewrite Hus in Hall.
      apply Forall_app in Hall as [Hpre [Hu Hpost]%Forall_cons].
      apply Forall_app. split; [done|].
      constructor; [by apply valid_email_field_update | done].
    + apply delete_user_inv in H as (pre & user & post & v & Hus & _ & _ & _ & ->).
      cbn [committed set_files set_users self users]. rewrite Hus in Hall.
      apply Forall_app in Hall as [Hpre [_ Hpost]%Forall_cons].
      by apply Forall_app.
  - assert (same_store w w') as [-> _]; [|done].
    destruct Hrun as [[user H] | [(user_id & updated_user & H) | [user_id H]]].
    + by apply (create_user_failure w user).
    + by apply (update_user_failure w user_id updated_user).
    + by apply (delete_user_failure w user_id).
Qed.

(** One call keeps a well kept list well kept, when it is not an
    [update_user] with an ['id'] among the new fields. *)
Lemma well_kept_step w w' b :
  well_kept (users (self w)) →
  (∃ user, create_user user w = Ok (b, w'))
  ∨ (∃ user_id (updated_user : record),
       updated_user !! "id" = None
       ∧ update_user user_id updated_user w = Ok (b, w'))
  ∨ (∃ user_id, delete_user user_id w = Ok (b, w')) →
  well_kept (users (self w')).
Proof.
  intros (Hall & Huniq & Hvalid) Hrun.
  assert (Forall valid_email_field (users (self w'))) as Hvalid'.
  { apply (emails_valid_step w w' b Hvalid).
    destruct Hrun as [? | [(user_id & updated_user & _ & ?) | ?]];
      [by left | right; left; by exists user_id, updated_user | by right; right]. }
  destruct b.
  - destruct Hrun as [[user H] | [(user_id & updated_user & Hno & H) | [user_id H]]].
    + destruct (create_user_keeps_unique_ids w user w' Hall Huniq H). by split_and!.
    + destruct (update_user_keeps_unique_ids w user_id updated_user w'
                  Hno Hall Huniq H). by split_and!.
    + destruct (delete_user_keeps_unique_ids w user_id w' Hall Huniq H).
      by split_and!.
  - assert (same_store w w') as [Hself _].
    { destruct Hrun as [[user H] | [(user_id & updated_user & _ & H) | [user_id H]]].
      - by apply (create_user_failure w user).
      - by apply (update_user_failure w user_id updated_user).
      - by apply (delete_user_failure w user_id). }
    rewrite Hself in *. by split_and!.
Qed.

(** One call keeps the file in sync with the list. *)
Lemma in_sync_step w w' b :
  in_sync w →
  (∃ user, create_user user w = Ok (b, w'))
  ∨ (∃ user_id (updated_user : record),
       update_user user_id updated_user w = Ok (b, w'))
  ∨ (∃ user_id, delete_user user_id w = Ok (b, w')) →
  in_sync w'.
Proof.
  intros Hsync Hrun. destruct b.
  - right.
    destruct Hrun as [[user H] | [(user_id & updated_user & H) | [user_id H]]].
    + apply create_user_success in H as (_ & _ & ->). apply lookup_insert_eq.
    + apply update_user_success in H
        as (? & ? & ? & ? & _ & _ & _ & _ & _ & _ & ->). apply lookup_insert_eq.
    + apply delete_user_inv in H as (? & ? & ? & ? & _ & _ & _ & _ & ->).
      apply lookup_insert_eq.
  - assert (same_store w w') as [Hself Hfiles].
    { destruct Hrun as [[user H] | [(user_id & updated_user & H) | [user_id H]]].
      - by apply (create_user_failure w user).
      - by apply (update_user_failure w user_id updated_user).
      - by apply (delete_user_failure w user_id). }
    unfold in_sync. by rewrite Hself, Hfiles.
Qed.

(** Whatever a program prints and whichever methods it calls, with
    whatever result: e-mails that were all valid are all valid afterwards. *)
Theorem calls_keep_emails_valid w w' :
  reaches (λ _, True) w w' →
  Forall valid_email_field (users (self w)) →
  Forall valid_email_field (users (self w')).
Proof.
  intros Hreach Hvalid.
  induction Hreach as [w
                      | line w0 w _ IH
                      | user b w0 w w' _ IH Hrun
                      | user_id updated_user b w0 w w' _ IH _ Hrun
                      | user_id b w0 w w' _ IH Hrun]; [done | by apply IH |..].
  - apply (emails_valid_step w w' b (IH Hvalid)). left. by exists user.
  - apply (emails_valid_step w w' b (IH Hvalid)).
    right; left. by exists user_id, updated_user.
  - apply (emails_valid_step w w' b (IH Hvalid)). right; right. by exists user_id.
Qed.

(** Whatever a program prints and whichever methods it calls, with whatever
    result, as long as it passes no ['id'] among the new fields of
    [update_user]: a list that was well kept (an id on every record, no id
    twice, every e-mail valid) is well kept afterwards, and a file that held
    the list holds it afterwards. *)
Theorem calls_keep_store w w' :
  reaches no_id w w' →
  (well_kept (users (self w)) → well_kept (users (self w')))
  ∧ (in_sync w → in_sync w').
Proof.
  induction 1 as [w
                 | line w0 w _ [IHk IHs]
                 | user b w0 w w' _ [IHk IHs] Hrun
                 | user_id updated_user b w0 w w' _ [IHk IHs] Hno Hrun
                 | user_id b w0 w w' _ [IHk IHs] Hrun]; [done | by split |..].
  - split.
    + intros Hkept. apply (well_kept_step w w' b (IHk Hkept)). left. by exists user.
    + intros Hsync. apply (in_sync_step w w' b (IHs Hsync)). left. by exists user.
  - split.
    + intros Hkept. apply (well_kept_step w w' b (IHk Hkept)).
      right; left. by exists user_id, updated_user.
    + intros Hsync. apply (in_sync_step w w' b (IHs Hsync)).
      right; left. by exists user_id, updated_user.
  - split.
    + intros Hkept. apply (well_kept_step w w' b (IHk Hkept)).
      right; right. by exists user_id.
    + intros Hsync. apply (in_sync_step w w' b (IHs Hsync)).
      right; right. by exists user_id.
Qed.

(** A store opened where there is no file has a well kept list, the empty
    one, and is in sync. *)
Lemma init_no_file name (fs : gmap string document) w :
  fs !! name = None → init name fs = Ok w →
  well_kept (users (self w)) ∧ in_sync w.
Proof.
  intros Hnone Hinit. unfold init, load_users in Hinit. cbn in Hinit.
  rewrite Hnone in Hinit. injection Hinit as <-. split.
  - split_and!; [constructor | apply NoDup_nil_2 | constructor].
  - by left.
Qed.

End Kept.

Lemma bob_valid_email : valid_email_field bob.
Proof. exists (VStr "bob@example.com"). by split. Qed.

Lemma alice_valid_email : valid_email_field alice.
Proof. exists (VStr "alice@example.com"). by split. Qed.

Lemma well_kept_bob : well_kept [bob].
Proof.
  split_and!.
  - repeat constructor. by eexists.
  - change (NoDup (ids [bob])). rewrite ids_bob. apply NoDup_singleton.
  - repeat constructor. apply bob_valid_email.
Qed.

Lemma calls_keep_emails_valid_witness :
  Forall valid_email_field
    [bob; dict_update alice {[ "id" := VStr "1"; "email" := VStr "al@example.com" ]}].
Proof.
  apply (calls_keep_emails_valid (loaded [bob])
           (committed [bob; dict_update alice
                              {[ "id" := VStr "1"; "email" := VStr "al@example.com" ]}]
              (loaded [bob]))).
  - apply (reaches_update _ (VStr "2")
             {[ "id" := VStr "1"; "email" := VStr "al@example.com" ]} true
             _ (committed [bob; alice] (loaded [bob]))); [|done|reflexivity].
    apply (reaches_create _ alice true _ (loaded [bob])); [|reflexivity].
    apply reaches_here.
  - repeat constructor. apply bob_valid_email.
Defined.

Lemma calls_keep_store_witness :
  well_kept [alice] ∧ in_sync (committed [alice] fresh).
Proof.
  destruct (calls_keep_store fresh (committed [alice] fresh)) as [Hkept Hsync].
  - apply (reaches_delete _ (VStr "1") true _ (committed [bob; alice] fresh));
      [|reflexivity].
    apply (reaches_create _ alice true _ (committed [bob] fresh)); [|reflexivity].
    apply (reaches_create _ bob true _ fresh); [|reflexivity].
    apply reaches_here.
  - split.
    + apply Hkept. by apply (init_no_file "users.json" ∅).
    + apply Hsync. by apply (init_no_file "users.json" ∅).
Defined.

(** ** search_users, beyond the criteria *)

Lemma comprehension_sublist cond (us rs : list record) :
  comprehension cond us = Ok rs → rs `sublist_of` us.
Proof.
  revert rs. induction us as [|u us IH]; intros rs; cbn.
  - intros [= <-]. constructor.
  - destruct (cond u) as [keep|]; [|done]. cbn.
    destruct (comprehension cond us) as [rest|]; [|done]. cbn.
    intros [= <-]. destruct keep.
    + apply sublist_skip. by apply IH.
    + apply sublist_cons. by apply IH.
Qed.

Lemma pass_sublist (given : value) cond (us rs : list record) :
  (if truthy given then comprehension cond us else Ok us) = Ok rs →
  rs `sublist_of` us.
Proof.
  destruct (truthy given).
  - apply comprehension_sublist.
  - by intros [= <-].
Qed.

(** Whatever the criteria, what [search_users] returns is taken from the
    list of the store: records of the list, each at most as often as it is
    there, in the order of the list. *)
Theorem search_users_sublist (this : UserManager) name email age rs :
  search_users this name email age = Ok rs → rs `sublist_of` users this.
Proof.
  unfold search_users.
  destruct (if truthy name then _ else _) as [r1|] eqn:E1; [|done].
  rewrite result_bind_Ok.
  destruct (if truthy email then _ else _) as [r2|] eqn:E2; [|done].
  rewrite result_bind_Ok.
  destruct (if truthy age then _ else _) as [r3|] eqn:E3; [|done].
  rewrite result_bind_Ok. intros [= <-].
  apply pass_sublist in E1, E2, E3.
  by repeat (etrans; [eassumption|]).
Qed.

Lemma search_users_sublist_witness :
  [bobby] `sublist_of` [bob; alice; bobby].
Proof.
  apply (search_users_sublist (self (loaded [bob; alice; bobby]))
           (VStr "BOBBY") VNone VNone).
  reflexivity.
Defined.

Lemma lower_char_idemp (c : ascii) : lower_char (lower_char c) = lower_char c.
Proof. destruct c as [[] [] [] [] [] [] [] []]; reflexivity. Qed.

Lemma lower_idemp (s : string) : lower (lower s) = lower s.
Proof.
  induction s as [|c s IH]; [done|]. simpl. by rewrite lower_char_idemp, IH.
Qed.

Lemma lower_empty (s : string) : lower s = "" ↔ s = "".
Proof. by destruct s. Qed.

Lemma comprehension_ext cond cond' (us : list record) :
  (∀ user, cond user = cond' user) →
  comprehension cond us = comprehension cond' us.
Proof.
  intros Hext. induction us as [|u us IH]; [done|].
  cbn. by rewrite Hext, IH.
Qed.

Lemma text_pass_lower key (n : string) (results : list record) :
  (if truthy (VStr n) then comprehension (same_lower key (VStr n)) results
   else Ok results)
  = (if truthy (VStr (lower n))
     then comprehension (same_lower key (VStr (lower n))) results
     else Ok results).
Proof.
  assert (truthy (VStr (lower n)) = truthy (VStr n)) as ->.
  { cbn. f_equal. apply bool_decide_ext, lower_empty. }
  destruct (truthy (VStr n)); [|done].
  apply comprehension_ext. intros user. unfold same_lower. cbn.
  by rewrite lower_idemp.
Qed.

(** The case of the letters of a name or e-mail criterion does not matter:
    [search_users] returns for them what it returns for their lower-case
    forms, exceptions included. *)
Theorem search_users_any_case (this : UserManager) (n e : string) age :
  search_users this (VStr n) (VStr e) age
  = search_users this (VStr (lower n)) (VStr (lower e)) age.
Proof.
  unfold search_users. rewrite (text_pass_lower "name" n).
  destruct (if truthy (VStr (lower n)) then _ else _) as [r1|]; [|done].
  rewrite !result_bind_Ok. by rewrite (text_pass_lower "email" e).
Qed.

(** * The console front end *)

Section ConsoleProperties.
Context {document : Type} `{!Json document}.
Variable py_int : string → result Z.
Variable py_str : read_result → string.
Implicit Types (c : console document) (w : world document).

Lemma follows_refl c : follows c c.
Proof. by split_and!. Qed.

Lemma follows_trans c1 c2 c3 : follows c1 c2 → follows c2 c3 → follows c1 c3.
Proof.
  intros (Hk1 & Hs1 & Hl1) (Hk2 & Hs2 & Hl2).
  split_and!; [by intros ?%Hk1%Hk2 | by intros ?%Hs1%Hs2 | lia].
Qed.

Lemma bind_unfold {A B} (m : C A) (f : A → C B) c :
  (m ≫= f) c = match m c with
               | Returned a c' => f a c'
               | Stopped why c' => Stopped why c'
               | OutOfFuel c' => OutOfFuel c'
               end.
Proof. reflexivity. Qed.

Lemma advances_ret {A} (a : A) : advances 0 (mret a : C A).
Proof. intros c. split; [apply follows_refl | done]. Qed.

Lemma advances_weaken {A} k (m : C A) : advances k m → advances 0 m.
Proof.
  intros Hm c. specialize (Hm c). destruct (m c); [|done..].
  split; [apply Hm | lia].
Qed.

(** The lines read by two pieces of [main], one after the other. *)
Lemma advances_bind {A B} k1 k2 (m : C A) (f : A → C B) :
  advances k1 m → (∀ a, advances k2 (f a)) → advances (k1 + k2) (m ≫= f).
Proof.
  intros Hm Hf c. rewrite bind_unfold. specialize (Hm c).
  destruct (m c) as [a c1|why c1|c1]; [|done..].
  destruct Hm as [Hfollows Hlen]. specialize (Hf a c1).
  destruct (f a c1) as [b c2|why c2|c2]; [| |done].
  - destruct Hf as [Hfollows' Hlen'].
    split; [by apply (follows_trans c c1 c2) | lia].
  - by apply (follows_trans c c1 c2).
Qed.

Lemma advances_then {A B} k (m : C A) (f : A → C B) :
  advances 0 m → (∀ a, advances k (f a)) → advances k (m ≫= f).
Proof. apply (advances_bind 0 k). Qed.

Lemma advances_try {A} (r : result A) : advances 0 (try r).
Proof.
  intros c. unfold try. destruct r; [|apply follows_refl].
  split; [apply follows_refl | done].
Qed.

Lemma advances_the_store : advances 0 the_store.
Proof. intros c. split; [apply follows_refl | done]. Qed.

(** A method called from [main] that keeps the list and the file. *)
Lemma advances_call {A} (m : M A) :
  (∀ w a w', m w = Ok (a, w') →
     (well_kept (users (self w)) → well_kept (users (self w')))
     ∧ (in_sync w → in_sync w')) →
  advances 0 (call m).
Proof.
  intros Hm c. unfold call.
  destruct (m (store c)) as [[a w']|e] eqn:Hrun; [|apply follows_refl].
  destruct (Hm _ _ _ Hrun) as [Hkept Hsync].
  split; [|done]. by split_and!.
Qed.

Lemma advances_print line : advances 0 (call (print line)).
Proof. apply advances_call. by intros w [] w' [= <-]. Qed.

Lemma advances_input prompt : advances 1 (input prompt).
Proof.
  intros c. unfold input, follows.
  destruct (stdin c) as [|line rest]; cbn; split_and!; (done || lia).
Qed.

Lemma advances_print_each us : advances 0 (print_each py_str us).
Proof.
  induction us as [|u us IH]; [apply advances_ret|].
  apply advances_then; [apply advances_print | by intros _].
Qed.

Lemma advances_create user : advances 0 (call (create_user user)).
Proof.
  apply advances_call. intros w b w' Hrun. split.
  - intros Hkept. apply (well_kept_step w w' b Hkept). left. by exists user.
  - intros Hsync. apply (in_sync_step w w' b Hsync). left. by exists user.
Qed.

Lemma advances_update user_id (updated_user : record) :
  updated_user !! "id" = None →
  advances 0 (call (update_user user_id updated_user)).
Proof.
  intros Hno. apply advances_call. intros w b w' Hrun. split.
  - intros Hkept. apply (well_kept_step w w' b Hkept).
    right; left. by exists user_id, updated_user.
  - intros Hsync. apply (in_sync_step w w' b Hsync).
    right; left. by exists user_id, updated_user.
Qed.

Lemma advances_delete user_id : advances 0 (call (delete_user user_id)).
Proof.
  apply advances_call. intros w b w' Hrun. split.
  - intros Hkept. apply (well_kept_step w w' b Hkept).
    right; right. by exists user_id.
  - intros Hsync. apply (in_sync_step w w' b Hsync).
    right; right. by exists user_id.
Qed.

End ConsoleProperties.

Section ConsoleMain.
Context {document : Type} `{!Json document}.
Variable py_int : string → result Z.
Variable py_str : read_result → string.
Implicit Types (c : console document) (w : world document).

Lemma advances_input0 prompt : advances 0 (input prompt).
Proof. apply (advances_weaken 1), advances_input. Qed.

(** Walk through a piece of [main], step by step. *)
Ltac step :=
  first
    [ apply advances_input0 | apply advances_print | apply advances_try
    | apply advances_the_store | apply advances_create | apply advances_delete
    | apply advances_print_each | apply advances_ret ].
Ltac steps :=
  repeat first
    [ step
    | apply advances_then; [step | intros ?]
    | progress cbv zeta
    | match goal with
      | |- advances _ (if ?b then _ else _) => destruct b
      | |- advances _ (match ?x with _ => _ end) => destruct x
      end ].

Lemma advances_typed_age age : advances 0 (typed_age py_int age).
Proof. unfold typed_age. steps. Qed.

Lemma advances_menu_create : advances 0 (menu_create py_int).
Proof. unfold menu_create. steps. Qed.

Lemma advances_menu_read : advances 0 (menu_read py_str).
Proof. unfold menu_read. steps. Qed.

Lemma advances_menu_delete : advances 0 menu_delete.
Proof. unfold menu_delete. steps. Qed.

Lemma advances_menu_search : advances 0 (menu_search py_int py_str).
Proof.
  unfold menu_search. steps.
  apply advances_then; [apply advances_typed_age | intros ?]. steps.
Qed.

(** Like [advances_then], knowing something of the value handed on. *)
Lemma advances_then_value {A B} (P : A → Prop) (m : C A) (f : A → C B) :
  advances 0 m →
  (∀ c, match m c with Returned a _ => P a | _ => True end) →
  (∀ a, P a → advances 0 (f a)) →
  advances 0 (m ≫= f).
Proof.
  intros Hm HP Hf c. rewrite bind_unfold. specialize (Hm c). specialize (HP c).
  destruct (m c) as [a c1|why c1|c1]; [|done..].
  destruct Hm as [Hfollows Hlen]. specialize (Hf a HP c1).
  destruct (f a c1) as [b c2|why c2|c2]; [| |done].
  - destruct Hf as [Hfollows' Hlen'].
    split; [by apply (follows_trans c c1 c2) | lia].
  - by apply (follows_trans c c1 c2).
Qed.

(** The new fields that [main] passes to [update_user] have no ['id']: the
    console cannot change an id. *)
Lemma advances_menu_update : advances 0 (menu_update py_int).
Proof.
  unfold menu_update.
  apply advances_then; [step | intros user_id].
  apply advances_then; [step | intros name].
  apply advances_then; [step | intros email].
  apply advances_then; [step | intros age]. cbv zeta.
  apply (advances_then_value (λ updated_user : record, updated_user !! "id" = None)).
  - steps.
  - intros c. set (typed := if truthy (VStr email) then _ else _).
    assert (typed !! "id" = None) as Htyped.
    { unfold typed. destruct (truthy (VStr email)), (truthy (VStr name));
        by rewrite ?lookup_insert_ne, ?lookup_empty. }
    destruct (truthy (VStr age)); [|done].
    destruct (py_int age) as [n|e]; [|done].
    change (<["age" := VInt n]> typed !! "id" = None).
    by rewrite lookup_insert_ne.
  - intros updated_user Hno.
    apply advances_then; [by apply advances_update | intros ?]. steps.
Qed.

Lemma advances_ask_feedback : advances 0 ask_feedback.
Proof. unfold ask_feedback. steps. Qed.

(** A turn of the loop reads at least one line: the choice. *)
Lemma advances_turn : advances 1 (turn py_int py_str).
Proof.
  unfold turn. do 7 (apply advances_then; [step | intros _]).
  apply (advances_bind 1 0); [apply advances_input | intros choice].
  repeat case_bool_decide;
    first
      [ apply advances_ret
      | apply advances_then;
        [ first [ apply advances_menu_create | apply advances_menu_read
                | apply advances_menu_update | apply advances_menu_delete
                | apply advances_menu_search | apply advances_print ]
        | intros _; apply advances_then;
          [apply advances_ask_feedback | intros _; apply advances_ret] ] ].
Qed.

(** With more fuel than there are lines to read, the loop ends, by the
    choice 6 or by an exception, in a console that follows. *)
Lemma main_loop_ends fuel c :
  length (stdin c) < fuel →
  match main_loop py_int py_str fuel c with
  | Returned _ c' | Stopped _ c' => follows c c'
  | OutOfFuel _ => False
  end.
Proof.
  revert c. induction fuel as [|fuel IH]; intros c Hlen; [lia|].
  cbn [main_loop]. rewrite bind_unfold.
  pose proof (advances_turn c) as Hturn.
  destruct (turn py_int py_str c) as [[] c1|why c1|c1]; [| |done..].
  - destruct Hturn as [Hfollows Hread].
    specialize (IH c1 ltac:(lia)).
    destruct (main_loop py_int py_str fuel c1); [| |done];
      by apply (follows_trans c c1).
  - apply Hturn.
Qed.

(** Any two bounds above the number of lines give the same run. *)
Lemma main_loop_fuel fuel fuel' c :
  length (stdin c) < fuel → length (stdin c) < fuel' →
  main_loop py_int py_str fuel c = main_loop py_int py_str fuel' c.
Proof.
  revert fuel' c. induction fuel as [|fuel IH]; intros fuel' c Hlen Hlen'; [lia|].
  destruct fuel' as [|fuel']; [lia|].
  cbn [main_loop]. rewrite !bind_unfold.
  pose proof (advances_turn c) as Hturn.
  destruct (turn py_int py_str c) as [[] c1|why c1|c1]; [|done..].
  destruct Hturn as [_ Hread]. apply IH; lia.
Qed.

(** [main] ends on every finite input: by the choice 6, or by an exception
    that nobody catches ([EOFError] when the lines run out, if nothing
    else).  The bound of the model does not matter once it is above the
    number of lines. *)
Theorem main_ends fuel lines (fs : gmap string document) :
  length lines < fuel →
  main py_int py_str fuel lines fs = main py_int py_str (S (length lines)) lines fs
  ∧ ∀ c, main py_int py_str fuel lines fs ≠ OutOfFuel c.
Proof.
  intros Hlen. unfold main.
  destruct (init "users.json" fs) as [w|e]; [|done]. split.
  - apply main_loop_fuel; cbn; lia.
  - intros c Hout.
    pose proof (main_loop_ends fuel {| stdin := lines; store := w |} Hlen) as H.
    by rewrite Hout in H.
Qed.

(** Whatever the user types, [main] leaves a well kept list well kept: no
    choice of the menu can give two records one id, take the id of a record
    away, or store an e-mail that is not valid.  And a file that held the
    list when [main] began holds it when [main] ends. *)
Theorem main_keeps_store fuel lines (fs : gmap string document) w0 :
  init "users.json" fs = Ok w0 →
  well_kept (users (self w0)) →
  length lines < fuel →
  ∃ c, (main py_int py_str fuel lines fs = Returned tt c
        ∨ ∃ why, main py_int py_str fuel lines fs = Stopped why c)
       ∧ well_kept (users (self (store c)))
       ∧ (in_sync w0 → in_sync (store c)).
Proof.
  intros Hinit Hkept Hlen. unfold main. rewrite Hinit.
  pose proof (main_loop_ends fuel {| stdin := lines; store := w0 |} Hlen) as H.
  destruct (main_loop py_int py_str fuel _) as [[] c|why c|c]; [| |done].
  - exists c. destruct H as (Hk & Hs & _). split_and!; [by left | by apply Hk | done].
  - exists c. destruct H as (Hk & Hs & _).
    split_and!; [right; by exists why | by apply Hk | done].
Qed.

End ConsoleMain.

Lemma main_ends_witness :
  main int_of_nothing str_of_nothing 9 ["4"; "1"; "no"; "6"]
    {[ "users.json" := [bob] ]}
  = main int_of_nothing str_of_nothing 5 ["4"; "1"; "no"; "6"]
      {[ "users.json" := [bob] ]}
  ∧ ∀ c, main int_of_nothing str_of_nothing 9 ["4"; "1"; "no"; "6"]
           {[ "users.json" := [bob] ]} ≠ OutOfFuel c.
Proof.
  apply (main_ends int_of_nothing str_of_nothing 9 ["4"; "1"; "no"; "6"]).
  cbn. lia.
Defined.

Lemma main_keeps_store_witness :
  ∃ c, (main int_of_nothing str_of_nothing 5 ["4"; "1"; "no"; "6"]
          {[ "users.json" := [bob] ]} = Returned tt c
        ∨ ∃ why, main int_of_nothing str_of_nothing 5 ["4"; "1"; "no"; "6"]
                   {[ "users.json" := [bob] ]} = Stopped why c)
       ∧ well_kept (users (self (store c)))
       ∧ (in_sync (loaded [bob]) → in_sync (store c)).
Proof.
  apply (main_keeps_store int_of_nothing str_of_nothing 5 ["4"; "1"; "no"; "6"]
           {[ "users.json" := [bob] ]} (loaded [bob])).
  - reflexivity.
  - apply well_kept_bob.
  - cbn. lia.
Defined.

Lemma search_users_spec_witness :
  search_users (self (loaded [bob; alice; bobby])) (VStr "BOBBY") VNone (VInt 7)
  = Ok (filter (λ user, satisfies (VStr "BOBBY") VNone (VInt 7) user = true)
          [bob; alice; bobby]).
Proof.
  apply (search_users_spec (self (loaded [bob; alice; bobby]))).
  - right. by exists "BOBBY".
  - by left.
  - right. by exists 7%Z.
  - repeat constructor; by eexists.
Defined.

(** ** The console at work *)

(** Delete Bob, decline the feedback, leave: [main] returns with the list
    empty and saved, and this is all it wrote. *)
Example main_delete_and_exit :
  main int_of_nothing str_of_nothing 5 ["4"; "1"; "no"; "6"]
    {[ "users.json" := [bob] ]}
  = Returned tt
      {| stdin := [];
         store :=
           {| self := {| filename := "users.json"; users := [] |};
              files := {[ "users.json" := [] ]};
              stdout :=
                [ newline +:+ "User Management System"; "1. Create User";
                  "2. Read User"; "3. Update User"; "4. Delete User";
                  "5. Search Users"; "6. Exit"; "Enter your choice: ";
                  "Enter user ID to delete: "; "User deleted successfully.";
                  "Would you like to provide feedback on your experience? (yes/no): ";
                  newline +:+ "User Management System"; "1. Create User";
                  "2. Read User"; "3. Update User"; "4. Delete User";
                  "5. Search Users"; "6. Exit"; "Enter your choice: " ] |} |}.
Proof. vm_compute. reflexivity. Qed.

(** An age that is no number ends the program with [ValueError], the list
    as it was. *)
Example main_create_bad_age :
  let run := main int_of_nothing str_of_nothing 2
               ["1"; "7"; "Ann"; "ann@example.com"; "x"]
               {[ "users.json" := [bob] ]} in
  stop_reason run = Some (Uncaught ValueError) ∧ final_users run = [bob].
Proof. split; vm_compute; reflexivity. Qed.

(** When the lines run out, [input] raises [EOFError]. *)
Example main_end_of_input :
  stop_reason (main int_of_nothing str_of_nothing 1 [] ∅) = Some EOFError.
Proof. vm_compute. reflexivity. Qed.

(** * What can end the console *)

(** ** The methods do not raise on a tidy list *)

Lemma email_rejected_total (updated_user : record) :
  (∀ v, updated_user !! "email" = Some v → ∃ s, v = VStr s) →
  ∃ rejected, email_rejected updated_user = Ok rejected.
Proof.
  intros Hstr. unfold email_rejected.
  destruct (updated_user !! "email") as [v|]; [|by eexists].
  destruct (Hstr v eq_refl) as [s ->]. by eexists.
Qed.

Lemma read_user_total (this : UserManager) user_id :
  Forall has_id (users this) → ∃ r, read_user this user_id = Ok r.
Proof.
  intros Hall. unfold read_user. destruct (truthy user_id); [|by eexists].
  destruct (first_with_id_total (users this) user_id Hall)
    as [[_ [u ->]] | [_ ->]]; by eexists.
Qed.

Lemma pass_total (given : value) cond (p : record → bool) (us : list record) :
  (∀ user, user ∈ us → cond user = Ok (p user)) →
  ∃ rs, (if truthy given then comprehension cond us else Ok us) = Ok rs
        ∧ rs ⊆ us.
Proof.
  intros Hcond. destruct (truthy given); [|by eexists].
  rewrite (comprehension_filter cond p) by done.
  eexists. split; [done|]. by intros u [_ ?]%list_elem_of_filter.
Qed.

(** [search_users] as the console calls it, with a name and an e-mail that
    are strings and an age that is [None] or an integer, does not raise on
    complete records. *)
Lemma search_users_total (this : UserManager) (n e : string) age :
  Forall complete (users this) →
  age = VNone ∨ (∃ z, age = VInt z) →
  ∃ rs, search_users this (VStr n) (VStr e) age = Ok rs.
Proof.
  intros Hall Hage. rewrite Forall_forall in Hall. unfold search_users.
  destruct (pass_total (VStr n) (same_lower "name" (VStr n))
              (text_matches "name" (VStr n)) (users this)) as (r1 & -> & Hr1).
  { intros u [[s Hs] _]%Hall. unfold same_lower, getitem, text_matches.
    by rewrite Hs. }
  rewrite result_bind_Ok.
  destruct (pass_total (VStr e) (same_lower "email" (VStr e))
              (text_matches "email" (VStr e)) r1) as (r2 & -> & Hr2).
  { intros u (_ & [s Hs] & _)%Hr1%Hall. unfold same_lower, getitem, text_matches.
    by rewrite Hs. }
  rewrite result_bind_Ok.
  destruct (pass_total age (same_age age) (λ u, match u !! "age" with
                                                | Some v => py_eq v age
                                                | None => false
                                                end) r2) as (r3 & -> & Hr3).
  { intros u (_ & _ & [v Hv])%Hr2%Hr1%Hall. unfold same_age, getitem.
    by rewrite Hv. }
  by eexists.
Qed.

Section MethodsTotal.
Context {document : Type} `{!Json document}.
Implicit Types (w : world document) (user : record) (us : list record).

Lemma create_user_total w user :
  Forall has_id (users (self w)) → has_id user →
  (∃ s, user !! "email" = Some (VStr s)) →
  ∃ b w', create_user user w = Ok (b, w').
Proof.
  intros Hall [user_id Hid] [s Hemail].
  rewrite (create_user_spec w user user_id s) by done.
  case_decide; [by eexists _, _|].
  destruct (re_match email_regex s); by eexists _, _.
Qed.

Lemma update_user_total w user_id (updated_user : record) :
  Forall has_id (users (self w)) →
  (∀ v, updated_user !! "email" = Some v → ∃ s, v = VStr s) →
  ∃ b w', update_user user_id updated_user w = Ok (b, w').
Proof.
  intros Hall [rejected Hrej]%email_rejected_total.
  destruct (decide (id_in user_id (users (self w)))) as [Hin | Hnot].
  - destruct (id_in_split _ _ Hall Hin)
      as (pre & user & post & v & Hus & Hpre & Hnot & Hv & Heq).
    rewrite (update_user_match w pre user post v user_id updated_user rejected)
      by done.
    destruct rejected; by eexists _, _.
  - rewrite update_user_no_match by done. by eexists _, _.
Qed.

Lemma delete_user_total w user_id :
  Forall has_id (users (self w)) →
  ∃ b w', delete_user user_id w = Ok (b, w').
Proof.
  intros Hall.
  destruct (decide (id_in user_id (users (self w)))) as [Hin | Hnot].
  - destruct (id_in_split _ _ Hall Hin)
      as (pre & user & post & v & Hus & Hpre & Hnot & Hv & Heq).
    rewrite (delete_user_match w pre user post v user_id) by done.
    by eexists _, _.
  - rewrite delete_user_no_match by done. by eexists _, _.
Qed.

Lemma tidy_update (user updated_user : record) :
  console_fields updated_user → tidy user →
  tidy (dict_update user updated_user).
Proof.
  intros (Hno & Hname & Hemail) ([v Hv] & [n Hn] & [e He] & [a Ha]).
  unfold tidy, has_id, complete. rewrite !dict_update_lookup, Hno.
  split_and!.
  - by exists v.
  - destruct (updated_user !! "name") as [x|]; [|by exists n].
    destruct (Hname x eq_refl) as [s ->]. by exists s.
  - destruct (updated_user !! "email") as [x|]; [|by exists e].
    destruct (Hemail x eq_refl) as [s ->]. by exists s.
  - destruct (updated_user !! "age") as [x|]; [by exists x | by exists a].
Qed.

(** A tidy list stays tidy: [create_user] of a tidy record, [update_user]
    with fields as the console passes them, [delete_user]. *)
Lemma methods_keep_tidy w w' b :
  Forall tidy (users (self w)) →
  (∃ user, tidy user ∧ create_user user w = Ok (b, w'))
  ∨ (∃ user_id (updated_user : record),
       console_fields updated_user
       ∧ update_user user_id updated_user w = Ok (b, w'))
  ∨ (∃ user_id, delete_user user_id w = Ok (b, w')) →
  Forall tidy (users (self w')).
Proof.
  intros Hall Hrun. destruct b.
  - destruct Hrun as [(user & Htidy & H) | [(user_id & updated_user & Hf & H)
                                           | [user_id H]]].
    + apply create_user_success in H as (_ & _ & ->).
      cbn [committed set_files set_users self users].
      apply Forall_app. split; [done | by apply Forall_singleton].
    + apply update_user_success in H
        as (pre & user & post & v & Hus & _ & _ & _ & _ & _ & ->).
      cbn [committed set_files set_users self users]. rewrite Hus in Hall.
      apply Forall_app in Hall as [Hpre [Hu Hpost]%Forall_cons].
      apply Forall_app. split; [done|].
      constructor; [by apply tidy_update | done].
    + apply delete_user_inv in H as (pre & user & post & v & Hus & _ & _ & _ & ->).
      cbn [committed set_files set_users self users]. rewrite Hus in Hall.
      apply Forall_app in Hall as [Hpre [_ Hpost]%Forall_cons].
      by apply Forall_app.
  - assert (same_store w w') as [-> _]; [|done].
    destruct Hrun as [(user & _ & H) | [(user_id & updated_user & _ & H)
                                       | [user_id H]]].
    + by apply (create_user_failure w user).
    + by apply (update_user_failure w user_id updated_user).
    + by apply (delete_user_failure w user_id).
Qed.

End MethodsTotal.

(** ** Pieces of [main] on a tidy store *)

Section ConsoleStops.
Context {document : Type} `{!Json document}.
Variable py_int : string → result Z.
Variable py_str : read_result → string.
Implicit Types (c : console document) (w : world document).

Abbreviation calm m := (hoare py_int tidy_store m (λ _, tidy_store)).

Lemma hoare_bind {A B} P Q R (m : C A) (f : A → C B) :
  hoare py_int P m Q → (∀ a, hoare py_int (Q a) (f a) R) →
  hoare py_int P (m ≫= f) R.
Proof.
  intros Hm Hf c HP. rewrite bind_unfold. specialize (Hm c HP).
  destruct (m c) as [a c1|why c1|c1]; [|done..]. by apply Hf.
Qed.

Lemma hoare_ret {A} P (a : A) : hoare py_int P (mret a : C A) (λ _, P).
Proof. by intros c HP. Qed.

(** A fact of the value handed on that does not depend on the console. *)
Lemma hoare_fact {A} P (fact : Prop) (m : C A) Q :
  (fact → hoare py_int P m Q) → hoare py_int (λ c, P c ∧ fact) m Q.
Proof. intros Hm c [HP Hfact]. by apply Hm. Qed.

Lemma calm_then {A B} (m : C A) (f : A → C B) :
  calm m → (∀ a, calm (f a)) → calm (m ≫= f).
Proof. apply hoare_bind. Qed.

Lemma calm_input prompt : calm (input prompt).
Proof. intros c Hc. unfold input. destruct (stdin c); [by left | done]. Qed.

Lemma calm_print line : calm (call (print line)).
Proof. by intros c Hc. Qed.

Lemma calm_int s : calm (try (py_int s)).
Proof.
  intros c Hc. unfold try. destruct (py_int s) as [n|e] eqn:E; [done|].
  right. by exists e, s.
Qed.

Lemma calm_print_each us : calm (print_each py_str us).
Proof.
  induction us as [|u us IH]; [apply hoare_ret|].
  apply calm_then; [apply calm_print | by intros _].
Qed.

(** A method called from [main] that does not raise and keeps the list
    tidy. *)
Lemma calm_call {A} (m : M A) :
  (∀ w, Forall tidy (users (self w)) →
        ∃ a w', m w = Ok (a, w') ∧ Forall tidy (users (self w'))) →
  calm (call m).
Proof.
  intros Hm c Hc. unfold call.
  by destruct (Hm (store c) Hc) as (a & w' & -> & Hw').
Qed.

Lemma tidy_has_id (us : list record) : Forall tidy us → Forall has_id us.
Proof. intros H. apply (Forall_impl _ _ _ H). by intros u [? _]. Qed.

Lemma tidy_complete (us : list record) : Forall tidy us → Forall complete us.
Proof. intros H. apply (Forall_impl _ _ _ H). by intros u [_ ?]. Qed.

Lemma calm_create user :
  tidy user → calm (call (create_user user)).
Proof.
  intros Htidy. apply calm_call. intros w Hw.
  destruct (create_user_total w user) as (b & w' & Hrun);
    [by apply tidy_has_id | apply Htidy | apply Htidy |].
  exists b, w'. split; [done|].
  apply (methods_keep_tidy w w' b Hw). left. by exists user.
Qed.

Lemma calm_update user_id (updated_user : record) :
  console_fields updated_user →
  calm (call (update_user user_id updated_user)).
Proof.
  intros Hfields. apply calm_call. intros w Hw.
  destruct (update_user_total w user_id updated_user) as (b & w' & Hrun);
    [by apply tidy_has_id | apply Hfields |].
  exists b, w'. split; [done|].
  apply (methods_keep_tidy w w' b Hw). right; left.
  by exists user_id, updated_user.
Qed.

Lemma calm_delete user_id : calm (call (delete_user user_id)).
Proof.
  apply calm_call. intros w Hw.
  destruct (delete_user_total w user_id) as (b & w' & Hrun);
    [by apply tidy_has_id |].
  exists b, w'. split; [done|].
  apply (methods_keep_tidy w w' b Hw). right; right. by exists user_id.
Qed.

(** [the_store] hands on an object whose list is tidy. *)
Lemma hoare_the_store :
  hoare py_int tidy_store the_store
    (λ this c, tidy_store c ∧ Forall tidy (users this)).
Proof. by intros c Hc. Qed.

Lemma calm_read (this : UserManager) user_id :
  Forall tidy (users this) → calm (try (read_user this user_id)).
Proof.
  intros Hthis c Hc. unfold try.
  by destruct (read_user_total this user_id (tidy_has_id _ Hthis)) as [r ->].
Qed.

Lemma calm_search (this : UserManager) (n e : string) age :
  Forall tidy (users this) → age = VNone ∨ (∃ z, age = VInt z) →
  calm (try (search_users this (VStr n) (VStr e) age)).
Proof.
  intros Hthis Hage c Hc. unfold try.
  by destruct (search_users_total this n e age (tidy_complete _ Hthis) Hage)
    as [rs ->].
Qed.

Lemma hoare_typed_age age :
  hoare py_int tidy_store (typed_age py_int age)
    (λ v c, tidy_store c ∧ (v = VNone ∨ ∃ z, v = VInt z)).
Proof.
  unfold typed_age. destruct (truthy (VStr age)).
  - apply (hoare_bind _ (λ _, tidy_store)); [apply calm_int | intros n].
    intros c Hc. split; [done|]. right. by exists n.
  - intros c Hc. split; [done | by left].
Qed.

Ltac calm_step :=
  first
    [ apply calm_input | apply calm_print | apply calm_int
    | apply calm_delete | apply calm_print_each | apply hoare_ret ].
Ltac calm_steps :=
  repeat first
    [ calm_step
    | apply calm_then; [calm_step | intros ?]
    | progress cbv zeta
    | match goal with
      | |- hoare _ _ (if ?b then _ else _) _ => destruct b
      end ].

Lemma calm_menu_create : calm (menu_create py_int).
Proof.
  unfold menu_create.
  apply calm_then; [calm_step | intros id].
  apply calm_then; [calm_step | intros name].
  apply calm_then; [calm_step | intros email].
  apply calm_then; [calm_step | intros age].
  apply calm_then; [calm_step | intros n]. cbv zeta.
  apply calm_then; [|intros ?; calm_steps].
  apply calm_create. split; [by eexists|].
  split_and!; by eexists.
Qed.

Lemma calm_menu_read : calm (menu_read py_str).
Proof.
  unfold menu_read.
  apply calm_then; [calm_step | intros user_id].
  eapply hoare_bind; [apply hoare_the_store | intros this].
  apply hoare_fact. intros Hthis.
  destruct (truthy (VStr user_id)).
  - apply calm_then; [by apply calm_read | intros r]. calm_steps.
  - intros c Hc. rewrite bind_unfold. by destruct (users this); cbn;
      apply (calm_print_each _ {| stdin := stdin c;
                                  store := printed "All Users:" (store c) |}).
Qed.

Lemma calm_menu_delete : calm menu_delete.
Proof. unfold menu_delete. calm_steps. Qed.

Lemma calm_menu_search : calm (menu_search py_int py_str).
Proof.
  unfold menu_search.
  apply calm_then; [calm_step | intros name].
  apply calm_then; [calm_step | intros email].
  apply calm_then; [calm_step | intros age].
  eapply hoare_bind; [apply hoare_typed_age | intros v].
  apply hoare_fact. intros Hv.
  eapply hoare_bind; [apply hoare_the_store | intros this].
  apply hoare_fact. intros Hthis.
  apply calm_then; [by apply calm_search | intros rs]. calm_steps.
Qed.

Lemma calm_menu_update : calm (menu_update py_int).
Proof.
  unfold menu_update.
  apply calm_then; [calm_step | intros user_id].
  apply calm_then; [calm_step | intros name].
  apply calm_then; [calm_step | intros email].
  apply calm_then; [calm_step | intros age]. cbv zeta.
  set (typed := if truthy (VStr email) then _ else _).
  assert (console_fields typed) as Htyped.
  { unfold typed, console_fields.
    destruct (truthy (VStr email)), (truthy (VStr name));
      rewrite ?lookup_insert_eq, ?lookup_insert_ne, ?lookup_empty by done;
      split_and!; try done; intros v [= <-]; by eexists. }
  apply (hoare_bind _ (λ updated_user c,
                         tidy_store c ∧ console_fields updated_user)).
  - destruct (truthy (VStr age)); [|by intros c Hc].
    apply (hoare_bind _ (λ _, tidy_store)); [apply calm_int | intros n].
    intros c Hc. split; [done|]. destruct Htyped as (Hno & Hname & Hemail).
    unfold console_fields. by rewrite !lookup_insert_ne.
  - intros updated_user. apply hoare_fact. intros Hfields.
    apply calm_then; [by apply calm_update | intros ?]. calm_steps.
Qed.

Lemma calm_ask_feedback : calm ask_feedback.
Proof. unfold ask_feedback. calm_steps. Qed.

Lemma calm_turn : calm (turn py_int py_str).
Proof.
  unfold turn. do 7 (apply calm_then; [calm_step | intros _]).
  apply calm_then; [calm_step | intros choice].
  repeat case_bool_decide;
    first
      [ apply hoare_ret
      | apply calm_then;
        [ first [ apply calm_menu_create | apply calm_menu_read
                | apply calm_menu_update | apply calm_menu_delete
                | apply calm_menu_search | apply calm_print ]
        | intros _; apply calm_then;
          [apply calm_ask_feedback | intros _; apply hoare_ret] ] ].
Qed.

Lemma calm_main_loop fuel : calm (main_loop py_int py_str fuel).
Proof.
  induction fuel as [|fuel IH]; [by intros c Hc|].
  cbn [main_loop]. apply calm_then; [apply calm_turn | intros []];
    [apply IH | apply hoare_ret].
Qed.

(** On a store whose records are tidy (each has an id, a name and an e-mail
    that are strings, and an age), whatever the user types, [main] is not
    ended by an exception of the store: if it stops, the lines have run out
    ([EOFError]) or [int] has raised on a text that was typed. *)
Theorem main_stops_on_input_only fuel lines (fs : gmap string document) w0 why c :
  init "users.json" fs = Ok w0 →
  Forall tidy (users (self w0)) →
  main py_int py_str fuel lines fs = Stopped why c →
  from_input py_int why.
Proof.
  intros Hinit Htidy Hrun. unfold main in Hrun. rewrite Hinit in Hrun.
  pose proof (calm_main_loop fuel {| stdin := lines; store := w0 |} Htidy) as H.
  by rewrite Hrun in H.
Qed.

End ConsoleStops.

Lemma tidy_bob : tidy bob.
Proof. split; [by eexists | split_and!; by eexists]. Qed.

Lemma main_stops_on_input_only_witness :
  from_input int_of_nothing (Uncaught ValueError).
Proof.
  apply (main_stops_on_input_only int_of_nothing str_of_nothing 1
           ["5"; ""; ""; "x"] {[ "users.json" := [bob] ]} (loaded [bob])
           (Uncaught ValueError)
           {| stdin := [];
              store :=
                {| self := self (loaded [bob]); files := files (loaded [bob]);
                   stdout :=
                     [ newline +:+ "User Management System"; "1. Create User";
                       "2. Read User"; "3. Update User"; "4. Delete User";
                       "5. Search Users"; "6. Exit"; "Enter your choice: ";
                       "Enter name to search (leave blank to skip): ";
                       "Enter email to search (leave blank to skip): ";
                       "Enter age to search (leave blank to skip): " ] |} |}).
  - reflexivity.
  - apply Forall_singleton, tidy_bob.
  - vm_compute. reflexivity.
Defined.
